(** * bikealert: the JUMP client and the nearest-five report

    A shallow embedding of the two Go packages of the repository:

    - package [jump] (the client: [NewClient], [newRequest], [Bikes], [Hubs]);
    - package [main] of [cmd/bikealert] ([main], [run], [getEnvFloat],
      [hsin], [distance], [doAsync]);
    - the earlier revisions of both that the tree still holds ([jump_rev1],
      [main_rev1]).

    Conventions.

    - [float64] is modelled by the real numbers of the Standard Library:
      [math.Sin], [math.Cos], [math.Asin], [math.Sqrt], [math.Pi] are [sin],
      [cos], [asin], [sqrt], [PI] and [math.Pow(x, 2)] is [x ^ 2].  Rounding,
      infinities and NaN are outside the model.
    - [int64] is [Z] with the wrap-around written out where the code adds.
    - A Go [error] is a value whose [Error] text can be read; [nil] is [None].
    - A Go slice is a backing array together with a length; its capacity is
      the length of the backing array.
    - A panic is an outcome of its own, distinct from a returned error.
    - What the Go libraries do (net/http, encoding/json, strconv, the
      process environment, the scheduler) is an input of the model. *)

From Stdlib Require Import Reals Lra Lia List ZArith String Ascii Bool.
From Stdlib Require Import DecimalString Machin Permutation Sorted.
Import ListNotations.
Set Warnings "-register-all".

Abbreviation float64 := R (only parsing).

(* ================================================================= *)
(** ** Go values shared by both packages *)

(** *** Errors *)

(** [errorString] is what [fmt.Errorf] and the libraries build;
    [withMessage] is what [errors.Wrap] of github.com/pkg/errors builds (the
    recorded stack does not show in [Error]). *)
Inductive error : Type :=
| errorString (s : string)
| withMessage (cause : error) (msg : string).

Fixpoint Error (e : error) : string :=
  match e with
  | errorString s => s
  | withMessage cause msg => (msg ++ ": " ++ Error cause)%string
  end.

(** [errors.Wrap(err, message)]: only ever called here with a non-nil [err]. *)
Definition errors_Wrap (err : error) (message : string) : error :=
  withMessage err message.

(** *** Panics *)

Inductive panic : Type :=
| SliceBoundsOutOfRange (high capacity : nat)
| IndexOutOfRange (index length : nat).

(** A computation that may panic. *)
Definition P (A : Type) : Type := (A + panic)%type.

Definition P_bind {A B} (m : P A) (f : A -> P B) : P B :=
  match m with
  | inl a => f a
  | inr p => inr p
  end.

(** *** Formatting *)

Inductive arg : Type :=
| ArgS (s : string)
| ArgD (d : Z)
| ArgF (f : float64).

Definition dquote : string := String (ascii_of_nat 34) EmptyString.
Definition newline : string := String (ascii_of_nat 10) EmptyString.

(** [%d] of an integer. *)
Definition fmt_d (d : Z) : string := NilZero.string_of_int (Z.to_int d).

Definition fmt_verb (verb : ascii) (a : arg) : string :=
  match a with
  | ArgS s => if Ascii.eqb verb "s" then s else "%!(BADVERB)"
  | ArgD d => if Ascii.eqb verb "d" then fmt_d d else "%!(BADVERB)"
  | ArgF _ => "%!(BADVERB)"
  end%string.

(** [fmt.Sprintf] for the verbs the two packages build their texts with:
    [%s], [%d] and [%%].  (Floats are only ever printed, see [EvPrintf].) *)
Fixpoint Sprintf (format : string) (args : list arg) : string :=
  match format with
  | EmptyString => EmptyString
  | String c rest =>
      if Ascii.eqb c "%" then
        match rest with
        | EmptyString => "%!(NOVERB)"%string
        | String verb rest' =>
            if Ascii.eqb verb "%" then String "%" (Sprintf rest' args)
            else
              match args with
              | a :: args' => (fmt_verb verb a ++ Sprintf rest' args')%string
              | [] => ("%!(MISSING)" ++ Sprintf rest' [])%string
              end
        end
      else String c (Sprintf rest args)
  end.

Definition fmt_Errorf (format : string) (args : list arg) : error :=
  errorString (Sprintf format args).

(** [strings.Contains]. *)
Fixpoint strings_Contains (s substr : string) : bool :=
  prefix substr s ||
  match s with
  | EmptyString => false
  | String _ s' => strings_Contains s' substr
  end.

(** *** Slices *)

Record slice (A : Type) : Type := mkSlice {
  arr : list A;   (* the backing array, from the slice's first element on *)
  len : nat
}.
Arguments mkSlice {A} _ _.
Arguments arr {A} _.
Arguments len {A} _.

Definition cap {A} (s : slice A) : nat := List.length (arr s).

(** The elements [s[0] .. s[len-1]]. *)
Definition elems {A} (s : slice A) : list A := firstn (len s) (arr s).

Definition nil_slice {A} : slice A := mkSlice [] 0.

(** A slice that is exactly full: [len = cap]. *)
Definition slice_of {A} (l : list A) : slice A := mkSlice l (List.length l).

(** The slice expression [s[:high]]: Go checks [high] against the capacity,
    not the length. *)
Definition slice_high {A} (s : slice A) (high : nat) : P (slice A) :=
  if (high <=? cap s)%nat then inl (mkSlice (arr s) high)
  else inr (SliceBoundsOutOfRange high (cap s)).

(** The index expression [l[i]] on a [[]float64]. *)
Definition index {A} (l : list A) (i : nat) : P A :=
  match nth_error l i with
  | Some x => inl x
  | None => inr (IndexOutOfRange i (List.length l))
  end.

(** *** sort.Slice

    The sort package is not part of the repository.  On a range of at most
    twelve elements it runs an insertion sort, which is what is written out
    here: [for i := a+1; i < b; i++ { for j := i; j > a && less(j, j-1); j--
    { swap(j, j-1) } }].  (Longer ranges are first partitioned; the result is
    again a permutation ordered by [less], ties apart.)  [less] may panic. *)
Section Sort.
Context {A : Type} (less : A -> A -> P bool).

(** The inner loop: [x] sits just above the sorted prefix, given from its
    last element down, and sinks while it is less than its neighbour. *)
Fixpoint sink (x : A) (below : list A) : P (list A) :=
  match below with
  | [] => inl [x]
  | y :: below' =>
      P_bind (less x y) (fun b =>
        if b then P_bind (sink x below') (fun r => inl (y :: r))
        else inl (x :: y :: below'))
  end.

Fixpoint insertionSort_from (below rest : list A) : P (list A) :=
  match rest with
  | [] => inl (rev below)
  | x :: rest' =>
      P_bind (sink x below) (fun below' => insertionSort_from below' rest')
  end.

Definition insertionSort (l : list A) : P (list A) :=
  insertionSort_from [] l.

(** Sorting is in place: the backing array beyond [len] is untouched. *)
Definition sort_Slice (s : slice A) : P (slice A) :=
  P_bind (insertionSort (elems s)) (fun sorted =>
    inl (mkSlice (sorted ++ skipn (len s) (arr s)) (len s))).
End Sort.

(* ================================================================= *)
(** ** Package jump *)

Module jump.

(** *** Records *)

(** Position contains coordinates for a bike or hub; [Coordinates] is a
    two-element list, longitude first. *)
Record Position : Type := mkPosition {
  Coordinates : list float64
}.

Module Bike.
Record t : Type := mk {
  ID : Z;
  Name : string;
  NetworkID : Z;
  StatsLastPor : string;
  BatteryLevel : Z;
  VehicleType : string;
  UnlockingMethods : list string;
  Sponsored : bool;
  EbikeBatteryLevel : Z;
  EbikeBatteryDistance : float64;
  InsideArea : bool;
  Address : string;
  CurrentPosition : Position
}.

(** The zero value. *)
Definition zero : t :=
  mk 0 EmptyString 0 EmptyString 0 EmptyString [] false 0 0%R false
     EmptyString (mkPosition []).
End Bike.

Module Hub.
Record t : Type := mk {
  ID : float64;
  Name : string;
  Description : string;
  Address : string;
  AreaID : Z;
  AvailableBikes : Z;
  AvailableEbikes : Z;
  AvailableScooters : Z;
  AvailableVehicles : Z;
  CollapseBikes : bool;
  CurrentBikes : Z;
  DisplayMethod : string;
  FreeRacks : Z;
  HasChargingInfrastructure : bool;
  HasKiosk : bool;
  LowChargeBountyHub : bool;
  MiddlePoint : Position;
  NetworkID : float64;
  Polygon : option string;
  Priority : bool;
  Public : bool;
  RacksAmount : float64;
  RebalanceBountyHub : bool;
  Sponsored : bool;
  SponsoredBikes : Z;
  Visible : bool;
  Warehouse : bool
}.

Definition zero : t :=
  mk 0%R EmptyString EmptyString EmptyString 0 0 0 0 0 false 0 EmptyString
     0 false false false (mkPosition [])
     0%R None false false 0%R false false 0 false false.
End Hub.

(** [bikesResponse] and [hubResponse] have the same four fields and differ
    in the type of the items only. *)
Record response (A : Type) : Type := mkResponse {
  CurrentPage : Z;
  PerPage : Z;
  TotalEntries : Z;
  Items : slice A
}.
Arguments mkResponse {A} _ _ _ _.
Arguments CurrentPage {A} _.
Arguments PerPage {A} _.
Arguments TotalEntries {A} _.
Arguments Items {A} _.

Definition bikesResponse : Type := response Bike.t.
Definition hubResponse : Type := response Hub.t.

Definition response_zero {A} : response A := mkResponse 0 0 0 nil_slice.

(** *** net/http as the client sees it *)

Definition Second : Z := 1000000000.

Record http_Client : Type := mkHttpClient {
  Timeout : Z
}.

Record Request : Type := mkRequest {
  Method : string;
  URL : string;
  Header : list (string * string)
}.

Definition Header_Add (req : Request) (key value : string) : Request :=
  mkRequest (Method req) (URL req) (Header req ++ [(key, value)]).

(** [Body] is what reading the response body to its end gives: the bytes,
    or the error of the read. *)
Record Response : Type := mkHttpResponse {
  StatusCode : Z;
  Body : string + error
}.

Definition StatusOK : Z := 200.

(** *** encoding/json as the client sees it *)

Inductive json : Type :=
| JNull
| JBool (b : bool)
| JNumber (literal : string)
| JString (s : string)
| JArray (elements : list json)
| JObject (members : list (string * json)).

(** The library behaviour the client relies on. *)
Record Runtime : Type := mkRuntime {
  (** [http.NewRequest(method, url, nil)] *)
  http_NewRequest : string -> string -> Request + error;
  (** [Do] of the http client; a request that outlives [Timeout] is an error *)
  http_Do : http_Client -> Request -> Response + error;
  (** the first JSON value of the bytes, or a syntax error *)
  json_parse : string -> json + error;
  (** the case folding under which an object key names a struct field *)
  json_equalFold : string -> string -> bool;
  (** storing a JSON value into an [int64] field that holds the given value *)
  unmarshal_int64 : json -> Z -> Z * option error;
  (** storing the elements of a JSON array into a [[]Bike] *)
  unmarshal_Bikes : list json -> slice Bike.t -> slice Bike.t * option error;
  (** storing the elements of a JSON array into a [[]Hub] *)
  unmarshal_Hubs : list json -> slice Hub.t -> slice Hub.t * option error
}.

Definition UnmarshalTypeError (value type : string) : error :=
  errorString
    ("json: cannot unmarshal " ++ value ++ " into Go value of type " ++ type).

Definition json_kind (v : json) : string :=
  match v with
  | JNull => "null"
  | JBool _ => "bool"
  | JNumber _ => "number"
  | JString _ => "string"
  | JArray _ => "array"
  | JObject _ => "object"
  end.

(** The decoder keeps the first error and goes on. *)
Definition saveError (saved new : option error) : option error :=
  match saved with
  | Some e => Some e
  | None => new
  end.

Section Decode.
Variable rt : Runtime.
Context {A : Type}.
(** the element decoder: [unmarshal_Bikes rt] or [unmarshal_Hubs rt] *)
Variable unmarshal_items : list json -> slice A -> slice A * option error.
(** the Go name of the element type, for the error text *)
Variable type_name : string.

Inductive field : Type := fCurrentPage | fPerPage | fTotalEntries | fItems.

(** The names of the [json:"..."] tags. *)
Definition field_name (f : field) : string :=
  match f with
  | fCurrentPage => "current_position"
  | fPerPage => "per_page"
  | fTotalEntries => "total_entries"
  | fItems => "items"
  end.

Definition fields : list field :=
  [fCurrentPage; fPerPage; fTotalEntries; fItems].

(** A key names the field with exactly that tag, else the first field
    whose tag it equals under case folding, else none (the member is
    skipped). *)
Definition find_field (key : string) : option field :=
  match find (fun f => String.eqb (field_name f) key) fields with
  | Some f => Some f
  | None => find (fun f => json_equalFold rt (field_name f) key) fields
  end.

(** Storing a value into the [Items] slice. *)
Definition unmarshal_slice (v : json) (cur : slice A)
  : slice A * option error :=
  match v with
  | JNull => (nil_slice, None)
  | JArray elements => unmarshal_items elements cur
  | _ => (cur, Some (UnmarshalTypeError (json_kind v) ("[]" ++ type_name)))
  end.

Definition unmarshal_member (st : response A * option error)
           (member : string * json) : response A * option error :=
  let '(r, saved) := st in
  let '(key, v) := member in
  match find_field key with
  | None => (r, saved)
  | Some fCurrentPage =>
      let '(n, e) := unmarshal_int64 rt v (CurrentPage r) in
      (mkResponse n (PerPage r) (TotalEntries r) (Items r), saveError saved e)
  | Some fPerPage =>
      let '(n, e) := unmarshal_int64 rt v (PerPage r) in
      (mkResponse (CurrentPage r) n (TotalEntries r) (Items r),
       saveError saved e)
  | Some fTotalEntries =>
      let '(n, e) := unmarshal_int64 rt v (TotalEntries r) in
      (mkResponse (CurrentPage r) (PerPage r) n (Items r), saveError saved e)
  | Some fItems =>
      let '(s, e) := unmarshal_slice v (Items r) in
      (mkResponse (CurrentPage r) (PerPage r) (TotalEntries r) s,
       saveError saved e)
  end.

(** Storing a JSON value into the envelope struct. *)
Definition unmarshal (v : json) (r : response A)
  : response A * option error :=
  match v with
  | JObject members => fold_left unmarshal_member members (r, None)
  | JNull => (r, None)
  | _ => (r, Some (UnmarshalTypeError (json_kind v) type_name))
  end.

(** [json.NewDecoder(res.Body).Decode(&parsedBody)] *)
Definition Decode (body : string + error) (r : response A)
  : response A * option error :=
  match body with
  | inr err => (r, Some err)
  | inl bytes =>
      match json_parse rt bytes with
      | inr err => (r, Some err)
      | inl v => unmarshal v r
      end
  end.
End Decode.

(** *** The client *)

(** Client has methods for accessing JUMP data. *)
Record Client : Type := mkClient {
  networkID : string;
  httpClient : http_Client
}.

Definition httpTimeout : Z := 5 * Second.

(** NewClient creates a new JUMP client. *)
Definition NewClient (networkID : string) : Client :=
  mkClient networkID (mkHttpClient httpTimeout).

Section Methods.
Variable rt : Runtime.

Definition newRequest (c : Client) (url : string) : Request + error :=
  match http_NewRequest rt "GET" url with
  | inr err => inr err
  | inl req =>
      let req := Header_Add req "Referer"
        (Sprintf "https://map.jump.com/?network_id=%s&theme=jump"
                 [ArgS (networkID c)]) in
      let req := Header_Add req "User-Agent"
        "Mozilla/5.0 (Macintosh; Intel Mac OS X 10_14_6) AppleWebKit/537.36 (KHTML, like Gecko) Chrome/76.0.3809.100 Safari/537.36" in
      let req := Header_Add req "Sec-Fetch-Mode" "cors" in
      let req := Header_Add req "Accept"
        "application/json, text/javascript, */*; q=0.01" in
      inl req
  end.

(** The two URLs, [fmt.Sprintf] of the network ID into the path. *)
Definition bikes_url (c : Client) : string :=
  Sprintf
    "https://app.jumpbikes.com/api/networks/%s/bikes?collapsed=false&per_page=999"
    [ArgS (networkID c)].

Definition hubs_url (c : Client) : string :=
  Sprintf
    "https://app.jumpbikes.com/api/networks/%s/hubs?collapsed=false&per_page=999"
    [ArgS (networkID c)].

(** The text built from the body of a response that is not a 200. *)
Definition status_body (res : Response) : string :=
  match Body res with
  | inr err => Sprintf "could not parse body (%s)" [ArgS (Error err)]
  | inl bodyBytes => bodyBytes
  end.

(** Bikes retrieves all of the bikes for the network. *)
Definition Bikes (c : Client) : slice Bike.t * option error :=
  let errPrefix := "jump.Bikes"%string in
  let url := bikes_url c in
  match newRequest c url with
  | inr err => (nil_slice, Some (errors_Wrap err errPrefix))
  | inl req =>
      match http_Do rt (httpClient c) req with
      | inr err => (nil_slice, Some (errors_Wrap err errPrefix))
      | inl res =>
          if negb (StatusCode res =? StatusOK)%Z then
            let body := status_body res in
            (nil_slice,
             Some (errors_Wrap
                     (fmt_Errorf "got status code %d: %s"
                                 [ArgD (StatusCode res); ArgS body])
                     errPrefix))
          else
            let parsedBody : bikesResponse := response_zero in
            match Decode rt (unmarshal_Bikes rt) "jump.Bike"
                         (Body res) parsedBody with
            | (_, Some err) => (nil_slice, Some (errors_Wrap err errPrefix))
            | (parsedBody, None) => (Items parsedBody, None)
            end
      end
  end.

(** Hubs retrieves all of the hubs for the network. *)
Definition Hubs (c : Client) : slice Hub.t * option error :=
  let errPrefix := "jump.Hubs"%string in
  let url := hubs_url c in
  match newRequest c url with
  | inr err => (nil_slice, Some (errors_Wrap err errPrefix))
  | inl req =>
      match http_Do rt (httpClient c) req with
      | inr err => (nil_slice, Some (errors_Wrap err errPrefix))
      | inl res =>
          if negb (StatusCode res =? StatusOK)%Z then
            let body := status_body res in
            (nil_slice,
             Some (errors_Wrap
                     (fmt_Errorf "got status code %d: %s"
                                 [ArgD (StatusCode res); ArgS body])
                     errPrefix))
          else
            let parsedBody : hubResponse := response_zero in
            match Decode rt (unmarshal_Hubs rt) "jump.Hub"
                         (Body res) parsedBody with
            | (_, Some err) => (nil_slice, Some (errors_Wrap err errPrefix))
            | (parsedBody, None) => (Items parsedBody, None)
            end
      end
  end.
End Methods.

End jump.

(* ================================================================= *)
(** ** Package main (cmd/bikealert) *)

Module main.

Import jump.

(** The comparison [x < y] of two floats, as a boolean. *)
Definition Rltb (x y : float64) : bool :=
  if Rlt_dec x y then true else false.

Definition hsin (theta : float64) : float64 :=
  ((sin (theta / 2)) ^ 2)%R.

(** distance returns distance between two coordinates in miles. *)
Definition distance (lat1 lon1 lat2 lon2 : float64) : float64 :=
  (* convert to radians *)
  let la1 := (lat1 * PI / 180)%R in
  let lo1 := (lon1 * PI / 180)%R in
  let la2 := (lat2 * PI / 180)%R in
  let lo2 := (lon2 * PI / 180)%R in
  let r := 3958.756%R in
  (* calculate *)
  let h := (hsin (la2 - la1) + cos la1 * cos la2 * hsin (lo2 - lo1))%R in
  (2 * r * asin (sqrt h))%R.

(** *** What an execution does, as the main flow sees it *)

Inductive fetch : Type := FetchBikes | FetchHubs.

(** The four variables the two goroutines assign and [run] reads. *)
Inductive var : Type := v_bikes | v_bikesErr | v_hubs | v_hubsErr.

Inductive event : Type :=
| EvLookupEnv (name : string)          (* os.LookupEnv *)
| EvNewClient (networkID : string)     (* jump.NewClient *)
| EvGo (f : fetch)                     (* doAsync starts the goroutine of a fetch *)
| EvSelect (f : fetch) (done : bool)   (* a select resolves: by the done channel, or by the timer *)
| EvRead (x : var)                     (* the main flow reads (or sorts) a variable *)
| EvPrintln (s : string)
| EvPrintf (format : string) (args : list arg).

Inductive outcome : Type :=
| Returns (err : option error)
| Panics (p : panic).

(** When a fetch returns, seen from the main flow.  [Early]: it has returned
    by the time the main flow first touches its variable; [InTime]: later,
    but before the timer of its select fires; [Late]: after the timer. *)
Inductive arrival : Type := Early | InTime | Late.

Definition arrived (a : arrival) : bool :=
  match a with
  | Late => false
  | _ => true
  end.

(** The inputs of one execution. *)
Record World : Type := mkWorld {
  LookupEnv : string -> option string;
  (** [strconv.ParseFloat(val, 64)] *)
  ParseFloat : string -> float64 * option error;
  (** what [jumpClient.Bikes()] and [jumpClient.Hubs()] return *)
  callBikes : Client -> slice Bike.t * option error;
  callHubs : Client -> slice Hub.t * option error;
  bikesArrival : arrival;
  hubsArrival : arrival
}.

(** The worlds in which the two calls are the methods of package [jump]
    over a given network. *)
Definition over_network (rt : Runtime)
           (env : string -> option string)
           (parse : string -> float64 * option error)
           (ab ah : arrival) : World :=
  mkWorld env parse (Bikes rt) (Hubs rt) ab ah.

(** *** The monad of the main flow: a trace, and a value or the end *)

Definition M (A : Type) : Type := (list event * (A + outcome))%type.

Definition ret {A} (a : A) : M A := ([], inl a).

Definition bind {A B} (m : M A) (f : A -> M B) : M B :=
  match m with
  | (t, inl a) => let '(t', r) := f a in (t ++ t', r)
  | (t, inr o) => (t, inr o)
  end.

Definition emit (e : event) : M unit := ([e], inl tt).

(** [return err] *)
Definition return_ {A} (err : option error) : M A := ([], inr (Returns err)).

Definition liftP {A} (m : P A) : M A :=
  match m with
  | inl a => ret a
  | inr p => ([], inr (Panics p))
  end.

Notation "x <- m ;; k" := (bind m (fun x => k))
  (at level 61, m at next level, right associativity).
Notation "' pat <- m ;; k" := (bind m (fun x => let 'pat := x in k))
  (at level 61, pat pattern, m at next level, right associativity).
Notation "m ;;; k" := (bind m (fun _ => k))
  (at level 61, right associativity).

Fixpoint for_range {A} (l : list A) (body : A -> M unit) : M unit :=
  match l with
  | [] => ret tt
  | x :: l' => body x ;;; for_range l' body
  end.

(** [int64] addition. *)
Definition add64 (x y : Z) : Z :=
  ((x + y + 2 ^ 63) mod 2 ^ 64 - 2 ^ 63)%Z.

(** *** The functions of the package *)

Definition getEnvFloat (w : World) (name : string)
  : M (float64 * option error) :=
  emit (EvLookupEnv name) ;;;
  match LookupEnv w name with
  | None =>
      ret (0%R, Some (fmt_Errorf ("envvar " ++ dquote ++ "%s" ++ dquote
                                    ++ " not set") [ArgS name]))
  | Some val =>
      let '(f, err) := ParseFloat w val in
      match err with
      | Some err =>
          ret (f, Some (errors_Wrap err
                 ("error parsing env var " ++ dquote ++ "%s" ++ dquote
                    ++ " as float")))
      | None => ret (f, None)
      end
  end.

(** [doAsync] starts [f] in a goroutine and returns the channel that is
    closed when [f] has returned; the channel is named by the fetch. *)
Definition doAsync (f : fetch) : M fetch :=
  emit (EvGo f) ;;; ret f.

(** [select { case <-ch: case <-time.After(5 * time.Second): ... }] *)
Definition select (ch : fetch) (a : arrival) : M bool :=
  emit (EvSelect ch (arrived a)) ;;; ret (arrived a).

(** The [less] closures given to [sort.Slice]. *)
Definition less_by (latitude longitude : float64)
           (iLocation jLocation : list float64) : P bool :=
  P_bind (index iLocation 1) (fun i1 =>
  P_bind (index iLocation 0) (fun i0 =>
  let iDistance := distance latitude longitude i1 i0 in
  P_bind (index jLocation 1) (fun j1 =>
  P_bind (index jLocation 0) (fun j0 =>
  let jDistance := distance latitude longitude j1 j0 in
  inl (Rltb iDistance jDistance))))).

Definition less_bikes (latitude longitude : float64) (bi bj : Bike.t)
  : P bool :=
  less_by latitude longitude
          (Coordinates (Bike.CurrentPosition bi))
          (Coordinates (Bike.CurrentPosition bj)).

Definition less_hubs (latitude longitude : float64) (hi hj : Hub.t)
  : P bool :=
  less_by latitude longitude
          (Coordinates (Hub.MiddlePoint hi))
          (Coordinates (Hub.MiddlePoint hj)).

Definition bike_format : string :=
  "Bike %s %s (%0.2f miles, %d%%)" ++ newline.

Definition hub_format : string :=
  "Hub %s %s (%d bikes) (%0.2f miles)" ++ newline.

Section Run.
(** [jump.NetworkSanFrancisco] is declared in a file of package [jump]
    that is not among the sources; its value is a parameter. *)
Variable NetworkSanFrancisco : string.

Definition run_body (w : World) : M unit :=
  '(latitude, err) <- getEnvFloat w "LAT" ;;
  match err with
  | Some err => return_ (Some err)
  | None =>
  '(longitude, err) <- getEnvFloat w "LNG" ;;
  match err with
  | Some err => return_ (Some err)
  | None =>
  emit (EvNewClient NetworkSanFrancisco) ;;;
  let jumpClient := NewClient NetworkSanFrancisco in

  bikesDone <- doAsync FetchBikes ;;
  hubsDone <- doAsync FetchHubs ;;

  done <- select bikesDone (bikesArrival w) ;;
  if negb done then
    return_ (Some (fmt_Errorf "timed out waiting for bikes response" []))
  else
  let '(bikes, bikesErr) := callBikes w jumpClient in
  emit (EvRead v_bikesErr) ;;;
  match bikesErr with
  | Some bikesErr => return_ (Some bikesErr)
  | None =>
  emit (EvRead v_bikes) ;;;
  bikes <- liftP (sort_Slice (less_bikes latitude longitude) bikes) ;;

  emit (EvPrintln "Bikes") ;;;
  emit (EvRead v_bikes) ;;;
  top <- liftP (slice_high bikes 5) ;;
  for_range (elems top) (fun bike =>
    let location := Coordinates (Bike.CurrentPosition bike) in
    l1 <- liftP (index location 1) ;;
    l0 <- liftP (index location 0) ;;
    let dist := distance latitude longitude l1 l0 in
    emit (EvPrintf bike_format
            [ArgS (Bike.Name bike); ArgS (Bike.Address bike); ArgF dist;
             ArgD (Bike.EbikeBatteryLevel bike)])) ;;;
  emit (EvPrintln EmptyString) ;;;

  (* [hubs] is sorted here, before the select on [hubsDone]: it holds the
     fetched list only if the goroutine has already returned. *)
  let '(fetchedHubs, hubsErr) := callHubs w jumpClient in
  let hubs := match hubsArrival w with
              | Early => fetchedHubs
              | _ => nil_slice
              end in
  emit (EvRead v_hubs) ;;;
  hubs <- liftP (sort_Slice (less_hubs latitude longitude) hubs) ;;

  done <- select hubsDone (hubsArrival w) ;;
  if negb done then
    return_ (Some (fmt_Errorf "timed out waiting for hubs response" []))
  else
  (* the goroutine has assigned [hubs] by now: before the sort, or after *)
  let hubs := match hubsArrival w with
              | Early => hubs
              | _ => fetchedHubs
              end in
  emit (EvRead v_hubsErr) ;;;
  match hubsErr with
  | Some hubsErr => return_ (Some hubsErr)
  | None =>
  emit (EvPrintln "Hubs") ;;;
  emit (EvRead v_hubs) ;;;
  top <- liftP (slice_high hubs 5) ;;
  for_range (elems top) (fun hub =>
    let location := Coordinates (Hub.MiddlePoint hub) in
    l1 <- liftP (index location 1) ;;
    l0 <- liftP (index location 0) ;;
    let dist := distance latitude longitude l1 l0 in
    emit (EvPrintf hub_format
            [ArgS (Hub.Name hub); ArgS (Hub.Address hub);
             ArgD (add64 (Hub.AvailableBikes hub) (Hub.AvailableEbikes hub));
             ArgF dist])) ;;;
  return_ None
  end end end end.

(** [run]: the trace of the execution and how it ends. *)
Definition run (w : World) : list event * outcome :=
  match run_body w with
  | (t, inl _) => (t, Returns None)
  | (t, inr o) => (t, o)
  end.
End Run.

(** How the process ends: [main] panics with the error of [run]. *)
Inductive exit_status : Type :=
| ExitNormally
| PanicWithError (err : error)
| PanicAtRuntime (p : panic).

Definition main (NetworkSanFrancisco : string) (w : World)
  : list event * exit_status :=
  match run NetworkSanFrancisco w with
  | (t, Returns None) => (t, ExitNormally)
  | (t, Returns (Some err)) => (t, PanicWithError err)
  | (t, Panics p) => (t, PanicAtRuntime p)
  end.

(** The lines written to standard output. *)
Definition is_print (e : event) : bool :=
  match e with
  | EvPrintln _ | EvPrintf _ _ => true
  | _ => false
  end.

Definition printed (t : list event) : list event := filter is_print t.

End main.

(* ================================================================= *)
(** ** The earlier revision of package jump

    The tree also holds an earlier copy of the client, with [Bikes] only
    and the request built in place.  Its records, [Client] and [NewClient]
    are the ones above. *)

Module jump_rev1.

Import jump.

Section Methods.
Variable rt : Runtime.

(** Bikes retrieves all of the bikes for the network. *)
Definition Bikes (c : Client) : slice Bike.t * option error :=
  let errPrefix := "jump.Bikes"%string in
  let url := bikes_url c in
  match http_NewRequest rt "GET" url with
  | inr err => (nil_slice, Some (errors_Wrap err errPrefix))
  | inl req =>
      let req := Header_Add req "Referer"
        (Sprintf "https://map.jump.com/?network_id=%s&theme=jump"
                 [ArgS (networkID c)]) in
      let req := Header_Add req "User-Agent"
        "Mozilla/5.0 (Macintosh; Intel Mac OS X 10_14_6) AppleWebKit/537.36 (KHTML, like Gecko) Chrome/76.0.3809.100 Safari/537.36" in
      let req := Header_Add req "Sec-Fetch-Mode" "cors" in
      let req := Header_Add req "Accept"
        "application/json, text/javascript, */*; q=0.01" in
      match http_Do rt (httpClient c) req with
      | inr err => (nil_slice, Some (errors_Wrap err errPrefix))
      | inl res =>
          if negb (StatusCode res =? StatusOK)%Z then
            let body := status_body res in
            (nil_slice,
             Some (errors_Wrap
                     (fmt_Errorf "got status code %d: %s"
                                 [ArgD (StatusCode res); ArgS body])
                     errPrefix))
          else
            let parsedBody : bikesResponse := response_zero in
            match Decode rt (unmarshal_Bikes rt) "jump.Bike"
                         (Body res) parsedBody with
            | (_, Some err) => (nil_slice, Some (errors_Wrap err errPrefix))
            | (parsedBody, None) => (Items parsedBody, None)
            end
      end
  end.
End Methods.

End jump_rev1.

(* ================================================================= *)
(** ** The earlier revision of package main

    The earlier [run] fetches the bikes, prints them, and only then fetches
    the hubs; nothing runs in a goroutine and there is no select.  Its
    [getEnvFloat], [hsin] and [distance] are the ones above, and so are its
    two [less] closures.  [EvGo f] marks the call of the fetch [f]. *)

Module main_rev1.

Import jump.
Import main.

Definition bike_format : string := "Bike %s %s (%0.2f miles)" ++ newline.

Definition hub_format : string := "Hub %s %s (%0.2f miles)" ++ newline.

Section Run.
Variable NetworkSanFrancisco : string.

Definition run_body (w : World) : M unit :=
  '(latitude, err) <- getEnvFloat w "LAT" ;;
  match err with
  | Some err => return_ (Some err)
  | None =>
  '(longitude, err) <- getEnvFloat w "LNG" ;;
  match err with
  | Some err => return_ (Some err)
  | None =>
  emit (EvNewClient NetworkSanFrancisco) ;;;
  let jumpClient := NewClient NetworkSanFrancisco in
  emit (EvGo FetchBikes) ;;;
  let '(bikes, err) := callBikes w jumpClient in
  match err with
  | Some err => return_ (Some err)
  | None =>
  bikes <- liftP (sort_Slice (less_bikes latitude longitude) bikes) ;;

  emit (EvPrintln "Bikes") ;;;
  top <- liftP (slice_high bikes 5) ;;
  for_range (elems top) (fun bike =>
    let location := Coordinates (Bike.CurrentPosition bike) in
    l1 <- liftP (index location 1) ;;
    l0 <- liftP (index location 0) ;;
    let dist := distance latitude longitude l1 l0 in
    emit (EvPrintf bike_format
            [ArgS (Bike.Name bike); ArgS (Bike.Address bike); ArgF dist])) ;;;
  emit (EvPrintln EmptyString) ;;;

  emit (EvGo FetchHubs) ;;;
  let '(hubs, err) := callHubs w jumpClient in
  match err with
  | Some err => return_ (Some err)
  | None =>
  hubs <- liftP (sort_Slice (less_hubs latitude longitude) hubs) ;;

  emit (EvPrintln "Hubs") ;;;
  top <- liftP (slice_high hubs 5) ;;
  for_range (elems top) (fun hub =>
    let location := Coordinates (Hub.MiddlePoint hub) in
    l1 <- liftP (index location 1) ;;
    l0 <- liftP (index location 0) ;;
    let dist := distance latitude longitude l1 l0 in
    emit (EvPrintf hub_format
            [ArgS (Hub.Name hub); ArgS (Hub.Address hub); ArgF dist])) ;;;
  return_ None
  end end end end.

Definition run (w : World) : list event * outcome :=
  match run_body w with
  | (t, inl _) => (t, Returns None)
  | (t, inr o) => (t, o)
  end.
End Run.

End main_rev1.

(* ================================================================= *)
(** ** Notions used in the statements *)

Import jump.
Import main.

(** The request for [url] is built and answered by [res]. *)
Definition receives (rt : Runtime) (c : Client) (url : string)
           (res : Response) : Prop :=
  exists req, newRequest rt c url = inl req /\
              http_Do rt (httpClient c) req = inl res.

(** The text of [err] shows the status code of [res] and its body, or the
    placeholder when the body could not be read. *)
Definition reports_status (res : Response) (err : error) : Prop :=
  strings_Contains (Error err) (fmt_d (StatusCode res)) = true /\
  (forall bodyBytes, Body res = inl bodyBytes ->
     strings_Contains (Error err) bodyBytes = true) /\
  (forall e, Body res = inr e ->
     strings_Contains (Error err)
       ("could not parse body (" ++ Error e ++ ")") = true).

Definition items_absent_or_null (rt : Runtime)
           (members : list (string * json)) : Prop :=
  forall key v, In (key, v) members ->
                find_field rt key = Some fItems -> v = JNull.

Definition status_error (pre : string) (res : Response) : error :=
  errors_Wrap
    (fmt_Errorf "got status code %d: %s"
                [ArgD (StatusCode res); ArgS (status_body res)]) pre.


(** A parsed document lacks the items: it is no object with a member that
    names the [Items] field with a value other than [null]. *)
Definition lacks_items (rt : Runtime) (v : json) : Prop :=
  forall members, v = JObject members -> items_absent_or_null rt members.

(** The text [errors.Wrap] is given in [getEnvFloat]. *)
Definition parse_error_text : string :=
  "error parsing env var " ++ dquote ++ "%s" ++ dquote ++ " as float".

Definition is_LookupEnv (e : event) : bool :=
  match e with
  | EvLookupEnv _ => true
  | _ => false
  end.

(** *** Stand-ins for the libraries, for the examples *)

(** A library that builds every request, answers it with [answer], reads a
    body [{}] as the empty object and nothing else, and stores arrays and
    numbers without touching the target. *)
Definition example_rt (answer : Request -> Response + error) : Runtime :=
  mkRuntime
    (fun method url => inl (mkRequest method url []))
    (fun _ req => answer req)
    (fun bytes => if String.eqb bytes "{}" then inl (JObject [])
                  else inr (errorString "invalid character"))
    String.eqb
    (fun _ n => (n, None))
    (fun _ s => (s, None))
    (fun _ s => (s, None)).

(** [strconv.ParseFloat] on the numeral [0] and on text that is no number. *)
Definition example_ParseFloat (s : string) : float64 * option error :=
  if String.eqb s "0" then (0%R, None)
  else (0%R, Some (errorString
                     ("strconv.ParseFloat: parsing " ++ dquote ++ s ++ dquote
                        ++ ": invalid syntax"))).

Definition example_env (lat lng : option string) (name : string)
  : option string :=
  if String.eqb name "LAT" then lat
  else if String.eqb name "LNG" then lng
  else None.

Definition example_world (lat lng : option string)
           (bikes : slice Bike.t * option error)
           (hubs : slice Hub.t * option error)
           (ab ah : arrival) : World :=
  mkWorld (example_env lat lng) example_ParseFloat
          (fun _ => bikes) (fun _ => hubs) ab ah.

Definition example_client : Client := NewClient "sf".

Definition response_404 : Response := mkHttpResponse 404 (inl "Not Found"%string).

Definition response_empty_object : Response :=
  mkHttpResponse 200 (inl "{}"%string).

(** *** The haversine formula, as it is usually written

    [a = sin²(Δφ/2) + cos φ1 · cos φ2 · sin²(Δλ/2)],
    [d = 2 · R · asin(√a)], with [R = 3958.756] miles, [φ] the latitude and
    [λ] the longitude in radians. *)
Definition earth_radius_miles : R := 3958.756%R.

Definition radians (degrees : R) : R := (degrees * PI / 180)%R.

Definition haversine_formula (phi1 lambda1 phi2 lambda2 : R) : R :=
  let a := ((sin ((phi2 - phi1) / 2))² +
            cos phi1 * cos phi2 * (sin ((lambda2 - lambda1) / 2))²)%R in
  (2 * earth_radius_miles * asin (sqrt a))%R.

(** *** Points at a known distance

    The longitude, in degrees, of the point of the equator [miles] east of
    the point (0, 0). *)
Definition lon_of (miles : R) : R := (miles * 180 / (3958.756 * PI))%R.

Definition bike_at (name : string) (miles : R) : Bike.t :=
  Bike.mk 0 name 0 EmptyString 0 EmptyString [] false 80 0%R true
          "Market St" (mkPosition [lon_of miles; 0%R]).

Definition hub_at (name : string) (miles : R) : Hub.t :=
  Hub.mk 0%R name EmptyString "Mission St" 0 2 1 0 3 false 0 EmptyString
         0 false false false (mkPosition [lon_of miles; 0%R])
         0%R None false true 0%R false false 0 true false.

(** The distance of a bike from (0, 0) as [run] computes it. *)
Definition bike_miles (b : Bike.t) : P float64 :=
  let location := Coordinates (Bike.CurrentPosition b) in
  P_bind (index location 1) (fun l1 =>
  P_bind (index location 0) (fun l0 =>
  inl (distance 0 0 l1 l0))).

(** Six bikes at 50, 10, 30, 5, 100 and 20 miles from (0, 0). *)
Definition six_bikes : list Bike.t :=
  [bike_at "a" 50; bike_at "b" 10; bike_at "c" 30;
   bike_at "d" 5; bike_at "e" 100; bike_at "f" 20].

Definition six_bikes_ranked : list Bike.t :=
  [bike_at "d" 5; bike_at "b" 10; bike_at "f" 20;
   bike_at "c" 30; bike_at "a" 50; bike_at "e" 100].

(** The line printed for [bike_at name miles], and for [hub_at name miles]. *)
Definition bike_line (name : string) (miles : R) : event :=
  EvPrintf bike_format
           [ArgS name; ArgS "Market St"; ArgF miles; ArgD 80].

Definition hub_line (name : string) (miles : R) : event :=
  EvPrintf hub_format
           [ArgS name; ArgS "Mission St"; ArgD 3; ArgF miles].

(** What every execution does before it looks at the bikes. *)
Definition trace_start (network : string) : list event :=
  [EvLookupEnv "LAT"; EvLookupEnv "LNG"; EvNewClient network;
   EvGo FetchBikes; EvGo FetchHubs].

(** [LAT=0 LNG=0], the six bikes, and a hubs fetch that does not return
    in time. *)
Definition world_six_bikes : World :=
  example_world (Some "0"%string) (Some "0"%string)
                (slice_of six_bikes, None) (nil_slice, None) InTime Late.

(** Three bikes in a backing array of four, as a decoder that grows the
    array to four slots leaves them. *)
Definition three_bikes : slice Bike.t :=
  mkSlice [bike_at "a" 30; bike_at "b" 10; bike_at "c" 20; Bike.zero] 3.

Definition world_three_bikes : World :=
  example_world (Some "0"%string) (Some "0"%string)
                (three_bikes, None) (nil_slice, None) InTime InTime.

Definition two_hubs : slice Hub.t :=
  slice_of [hub_at "x" 20; hub_at "y" 10].

Definition world_two_hubs : World :=
  example_world (Some "0"%string) (Some "0"%string)
                (slice_of six_bikes, None) (two_hubs, None) InTime Early.

(** The hubs fetch is answered by a 404. *)
Definition world_hubs_404 : World :=
  example_world (Some "0"%string) (Some "0"%string)
                (slice_of six_bikes, None)
                (nil_slice, Some (status_error "jump.Hubs" response_404))
                InTime InTime.

(** Five hubs, farthest first. *)
Definition five_hubs : list Hub.t :=
  [hub_at "p" 50; hub_at "q" 40; hub_at "r" 30; hub_at "s" 20;
   hub_at "t" 10].

(** Both fetches succeed; the hubs fetch returns after the main flow has
    sorted [hubs], and before the timer of its select. *)
Definition world_hubs_after_sort : World :=
  example_world (Some "0"%string) (Some "0"%string)
                (slice_of six_bikes, None) (slice_of five_hubs, None)
                InTime InTime.

(** Some fetch fails: it returns an error, or it does not return in time. *)
Definition bikes_fetch_fails (network : string) (w : World) : Prop :=
  arrived (bikesArrival w) = false \/
  snd (callBikes w (NewClient network)) <> None.

Definition hubs_fetch_fails (network : string) (w : World) : Prop :=
  arrived (hubsArrival w) = false \/
  snd (callHubs w (NewClient network)) <> None.

Definition is_hubs_line (e : event) : bool :=
  match e with
  | EvPrintln s => String.eqb s "Hubs"
  | EvPrintf format _ => String.eqb format hub_format
  | _ => false
  end.

(** The Bikes section printed for the six bikes. *)
Definition six_bikes_section : list event :=
  [EvPrintln "Bikes";
   bike_line "d" 5; bike_line "b" 10; bike_line "f" 20;
   bike_line "c" 30; bike_line "a" 50;
   EvPrintln EmptyString].

(** What the main flow does with the six bikes, once they have arrived. *)
Definition six_bikes_trace : list event :=
  [EvSelect FetchBikes true; EvRead v_bikesErr; EvRead v_bikes;
   EvPrintln "Bikes"; EvRead v_bikes;
   bike_line "d" 5; bike_line "b" 10; bike_line "f" 20;
   bike_line "c" 30; bike_line "a" 50;
   EvPrintln EmptyString].

(** *** Properties of a computation of the main flow

    [sat Q O V m]: every event of [m] passes [Q]; if [m] ends the run, it
    ends it with an outcome in [O]; if it goes on, its value is in [V]. *)
Definition sat {A : Type} (Q : event -> bool) (O : outcome -> Prop)
           (V : A -> Prop) (m : M A) : Prop :=
  forallb Q (fst m) = true /\
  match snd m with
  | inl a => V a
  | inr o => O o
  end.

Definition not_print (e : event) : bool := negb (is_print e).

Definition not_hubs_line (e : event) : bool := negb (is_hubs_line e).

Definition failed (o : outcome) : Prop := o <> Returns None.

(** *** Reading a trace with a state

    [scan step s t] runs the partial transition function [step] over the
    events of [t] from the state [s]; [hoare step s m post exit]: the trace
    of [m] can be read from [s], and the state reached satisfies [post]
    with the value of [m], or [exit] with the outcome that ends the run. *)
Section Scan.
Context {S : Type} (step : S -> event -> option S).

Fixpoint scan (s : S) (t : list event) : option S :=
  match t with
  | [] => Some s
  | e :: t' =>
      match step s e with
      | Some s' => scan s' t'
      | None => None
      end
  end.

Definition accepts (s : S) (t : list event) : bool :=
  match scan s t with
  | Some _ => true
  | None => false
  end.

Definition hoare {A : Type} (s : S) (m : M A)
           (post : A -> S -> Prop) (exit : outcome -> S -> Prop) : Prop :=
  exists s', scan s (fst m) = Some s' /\
             match snd m with
             | inl a => post a s'
             | inr o => exit o s'
             end.
End Scan.

(** The reads of [bikes], [bikesErr] and [hubsErr] are guarded: the state
    holds whether the select on [bikesDone] and the select on [hubsDone]
    have been resolved by their channels; a read of a guarded variable
    before that is refused.  ([hubs] is not guarded, see below.) *)
Definition guard_step (s : bool * bool) (e : event) : option (bool * bool) :=
  let '(bikesWaited, hubsWaited) := s in
  match e with
  | EvSelect FetchBikes done => Some (bikesWaited || done, hubsWaited)
  | EvSelect FetchHubs done => Some (bikesWaited, hubsWaited || done)
  | EvRead v_bikes | EvRead v_bikesErr =>
      if bikesWaited then Some s else None
  | EvRead v_hubsErr => if hubsWaited then Some s else None
  | _ => Some s
  end.

(** The state holds whether [hubs] has been read; a select on [hubsDone]
    before that is refused. *)
Definition hubs_order_step (hubsRead : bool) (e : event) : option bool :=
  match e with
  | EvRead v_hubs => Some true
  | EvSelect FetchHubs _ => if hubsRead then Some hubsRead else None
  | _ => Some hubsRead
  end.

(** The state is the list of the lines printed so far. *)
Definition print_step (lines : list event) (e : event)
  : option (list event) :=
  Some (if is_print e then lines ++ [e] else lines).

(** The lines [run] prints for a bike and for a hub. *)
Definition bike_report (latitude longitude : float64) (bike : Bike.t)
  : event :=
  let location := Coordinates (Bike.CurrentPosition bike) in
  EvPrintf bike_format
    [ArgS (Bike.Name bike); ArgS (Bike.Address bike);
     ArgF (distance latitude longitude (nth 1 location 0%R)
                    (nth 0 location 0%R));
     ArgD (Bike.EbikeBatteryLevel bike)].

Definition hub_report (latitude longitude : float64) (hub : Hub.t)
  : event :=
  let location := Coordinates (Hub.MiddlePoint hub) in
  EvPrintf hub_format
    [ArgS (Hub.Name hub); ArgS (Hub.Address hub);
     ArgD (add64 (Hub.AvailableBikes hub) (Hub.AvailableEbikes hub));
     ArgF (distance latitude longitude (nth 1 location 0%R)
                    (nth 0 location 0%R))].

(** The distance of a bike and of a hub from [(latitude, longitude)], with
    0 for a coordinate that is missing. *)
Definition bike_distance (latitude longitude : float64) (bike : Bike.t)
  : float64 :=
  let location := Coordinates (Bike.CurrentPosition bike) in
  distance latitude longitude (nth 1 location 0%R) (nth 0 location 0%R).

Definition hub_distance (latitude longitude : float64) (hub : Hub.t)
  : float64 :=
  let location := Coordinates (Hub.MiddlePoint hub) in
  distance latitude longitude (nth 1 location 0%R) (nth 0 location 0%R).

(** What a run that returns nil has read, sorted and printed. *)
Definition success_report (network : string) (w : World)
           (lines : list event) : Prop :=
  exists (lat lng : float64) (bikes sortedBikes : slice Bike.t)
         (hubs sortedHubs : slice Hub.t),
    snd (getEnvFloat w "LAT") = inl (lat, None) /\
    snd (getEnvFloat w "LNG") = inl (lng, None) /\
    arrived (bikesArrival w) = true /\
    callBikes w (NewClient network) = (bikes, None) /\
    sort_Slice (less_bikes lat lng) bikes = inl sortedBikes /\
    (5 <= cap sortedBikes)%nat /\
    arrived (hubsArrival w) = true /\
    callHubs w (NewClient network) = (hubs, None) /\
    sort_Slice (less_hubs lat lng)
               match hubsArrival w with
               | Early => hubs
               | _ => nil_slice
               end = inl sortedHubs /\
    let printedHubs := match hubsArrival w with
                       | Early => sortedHubs
                       | _ => hubs
                       end in
    (5 <= cap printedHubs)%nat /\
    lines = EvPrintln "Bikes"
            :: map (bike_report lat lng) (firstn 5 (arr sortedBikes))
            ++ EvPrintln EmptyString
            :: EvPrintln "Hubs"
            :: map (hub_report lat lng) (firstn 5 (arr printedHubs)).

Definition is_bike_line (e : event) : bool :=
  match e with
  | EvPrintf format _ => String.eqb format bike_format
  | _ => false
  end.

Definition is_hub_line (e : event) : bool :=
  match e with
  | EvPrintf format _ => String.eqb format hub_format
  | _ => false
  end.

(** Both fetches succeed and the hubs have arrived before the main flow
    sorts them. *)
Definition world_hubs_early : World :=
  example_world (Some "0"%string) (Some "0"%string)
                (slice_of six_bikes, None) (slice_of five_hubs, None)
                InTime Early.

Definition five_hubs_ranked : list Hub.t :=
  [hub_at "t" 10; hub_at "s" 20; hub_at "r" 30; hub_at "q" 40;
   hub_at "p" 50].

(** A state that records nothing. *)
Definition no_step (s : unit) (e : event) : option unit := Some s.

(** The six bikes do not arrive in time. *)
Definition world_bikes_late : World :=
  example_world (Some "0"%string) (Some "0"%string)
                (slice_of six_bikes, None) (slice_of five_hubs, None)
                Late Early.

(** *** What the lines of the two revisions say

    A line is a header or a record; the two revisions print a record in
    different formats (the later one adds the battery level and the number
    of bikes). *)
Inductive line : Type :=
| HeaderLine (s : string)
| BikeRecord (name address : string) (miles : float64)
| HubRecord (name address : string) (miles : float64).

(** The first float among the arguments. *)
Fixpoint float_arg (args : list arg) : option float64 :=
  match args with
  | [] => None
  | ArgF f :: _ => Some f
  | _ :: args' => float_arg args'
  end.

Definition line_of (bike_format hub_format : string) (e : event)
  : list line :=
  match e with
  | EvPrintln s => [HeaderLine s]
  | EvPrintf format (ArgS name :: ArgS address :: rest) =>
      match float_arg rest with
      | Some miles =>
          if String.eqb format bike_format then [BikeRecord name address miles]
          else if String.eqb format hub_format
               then [HubRecord name address miles]
               else []
      | None => []
      end
  | _ => []
  end.

Definition lines_rev1 (t : list event) : list line :=
  flat_map (line_of main_rev1.bike_format main_rev1.hub_format) t.

Definition lines_now (t : list event) : list line :=
  flat_map (line_of bike_format hub_format) t.

(** A computation of the earlier revision and one of the present revision
    agree: same value or same end, and the same lines. *)
Definition agree {A : Type} (m1 m2 : M A) : Prop :=
  snd m1 = snd m2 /\ lines_rev1 (fst m1) = lines_now (fst m2).

(* ================================================================= *)
(** ** Texts *)

Lemma append_empty_r (s : string) : (s ++ EmptyString)%string = s.
Proof. induction s as [|c s IH]; simpl; [reflexivity | now rewrite IH]. Qed.

Lemma append_assoc' (a b c : string) :
  ((a ++ b) ++ c)%string = (a ++ (b ++ c))%string.
Proof. induction a as [|x a IH]; simpl; [reflexivity | now rewrite IH]. Qed.

Lemma prefix_append (s t : string) : prefix s (s ++ t) = true.
Proof.
  induction s as [|c s IH]; simpl.
  - now destruct t.
  - destruct (ascii_dec c c) as [_|ne]; [exact IH | now destruct ne].
Qed.

Lemma Contains_here (sub post : string) :
  strings_Contains (sub ++ post) sub = true.
Proof.
  assert (U : forall s, strings_Contains s sub = true <->
                        prefix sub s = true \/
                        match s with
                        | EmptyString => False
                        | String _ s' => strings_Contains s' sub = true
                        end).
  { intros [|c s]; simpl; rewrite orb_true_iff; intuition discriminate. }
  apply U. left. apply prefix_append.
Qed.

Lemma Contains_append (pre sub post : string) :
  strings_Contains (pre ++ sub ++ post) sub = true.
Proof.
  induction pre as [|c pre IH]; simpl.
  - apply Contains_here.
  - rewrite IH. apply orb_true_r.
Qed.

Lemma Contains_suffix (pre sub : string) :
  strings_Contains (pre ++ sub) sub = true.
Proof.
  rewrite <- (append_empty_r sub) at 1. apply Contains_append.
Qed.

Lemma status_text (pre : string) (res : Response) :
  Error (status_error pre res)
  = (pre ++ ": got status code " ++ fmt_d (StatusCode res) ++ ": "
         ++ status_body res)%string.
Proof.
  unfold status_error. cbn -[fmt_d status_body]. now rewrite append_empty_r.
Qed.

Lemma placeholder_text (s : string) :
  Sprintf "could not parse body (%s)" [ArgS s]
  = ("could not parse body (" ++ s ++ ")")%string.
Proof. reflexivity. Qed.

Lemma status_text_reports (pre : string) (res : Response) (err : error) :
  Error err = (pre ++ ": got status code " ++ fmt_d (StatusCode res) ++ ": "
                   ++ status_body res)%string ->
  reports_status res err.
Proof.
  intros E.
  assert (B : strings_Contains (Error err) (status_body res) = true).
  { rewrite E. generalize (status_body res); intros body.
    replace (pre ++ ": got status code " ++ fmt_d (StatusCode res) ++ ": "
                 ++ body)%string
      with ((pre ++ ": got status code " ++ fmt_d (StatusCode res) ++ ": ")
              ++ body)%string
      by (rewrite (append_assoc' pre), (append_assoc' ": got status code "),
           (append_assoc' (fmt_d (StatusCode res))); reflexivity).
    apply Contains_suffix. }
  unfold reports_status. repeat split.
  - rewrite E, <- (append_assoc' pre). apply Contains_append.
  - intros b Hb. unfold status_body in B. now rewrite Hb in B.
  - intros e He. unfold status_body in B. rewrite He in B.
    now rewrite placeholder_text in B.
Qed.

Lemma Bikes_non200 (rt : Runtime) (c : Client) (res : Response) :
  receives rt c (bikes_url c) res ->
  StatusCode res <> StatusOK ->
  Bikes rt c = (nil_slice, Some (status_error "jump.Bikes" res)).
Proof.
  intros (req & Hreq & Hdo) Hne.
  apply Z.eqb_neq in Hne.
  unfold Bikes.
  rewrite Hreq, Hdo, Hne. reflexivity.
Qed.

Lemma Hubs_non200 (rt : Runtime) (c : Client) (res : Response) :
  receives rt c (hubs_url c) res ->
  StatusCode res <> StatusOK ->
  Hubs rt c = (nil_slice, Some (status_error "jump.Hubs" res)).
Proof.
  intros (req & Hreq & Hdo) Hne.
  apply Z.eqb_neq in Hne.
  unfold Hubs.
  rewrite Hreq, Hdo, Hne. reflexivity.
Qed.

(** C6.  When the answer to the request of [Bikes] or of [Hubs] has a status
    other than 200, the method returns an error whose text contains the
    status code in decimal and the text of the body, or the placeholder
    [could not parse body (...)] when the body could not be read. *)
Theorem non200_error_text (rt : Runtime) (c : Client) (res : Response) :
  StatusCode res <> StatusOK ->
  (receives rt c (bikes_url c) res ->
   exists err, Bikes rt c = (nil_slice, Some err) /\ reports_status res err)
  /\
  (receives rt c (hubs_url c) res ->
   exists err, Hubs rt c = (nil_slice, Some err) /\ reports_status res err).
Proof.
  intros Hne; split; intros Hrec.
  - exists (status_error "jump.Bikes" res); split.
    + now apply Bikes_non200.
    + apply (status_text_reports "jump.Bikes"), status_text.
  - exists (status_error "jump.Hubs" res); split.
    + now apply Hubs_non200.
    + apply (status_text_reports "jump.Hubs"), status_text.
Qed.

Lemma non200_error_text_witness :
  (exists err,
      Bikes (example_rt (fun _ => inl response_404)) example_client
      = (nil_slice, Some err) /\ reports_status response_404 err) /\
  (exists err,
      Hubs (example_rt (fun _ => inl response_404)) example_client
      = (nil_slice, Some err) /\ reports_status response_404 err).
Proof.
  assert (H : StatusCode response_404 <> StatusOK) by (vm_compute; discriminate).
  destruct (non200_error_text (example_rt (fun _ => inl response_404))
                              example_client response_404 H) as [HB HH].
  split; [apply HB | apply HH]; (eexists; split; reflexivity).
Defined.

(* ================================================================= *)
(** ** Envelopes without items *)

Lemma unmarshal_member_keeps_nil {A : Type} (rt : Runtime)
      (unm : list json -> slice A -> slice A * option error) (ty : string)
      (key : string) (v : json) (r : response A) (saved : option error) :
  (find_field rt key = Some fItems -> v = JNull) ->
  Items r = nil_slice ->
  Items (fst (unmarshal_member rt unm ty (r, saved) (key, v))) = nil_slice.
Proof.
  intros Hnull Hr. unfold unmarshal_member.
  destruct (find_field rt key) as [[| | |]|].
  - destruct (unmarshal_int64 rt v (CurrentPage r)); exact Hr.
  - destruct (unmarshal_int64 rt v (PerPage r)); exact Hr.
  - destruct (unmarshal_int64 rt v (TotalEntries r)); exact Hr.
  - rewrite (Hnull eq_refl). reflexivity.
  - exact Hr.
Qed.

Lemma unmarshal_members_keep_nil {A : Type} (rt : Runtime)
      (unm : list json -> slice A -> slice A * option error) (ty : string)
      (members : list (string * json)) :
  items_absent_or_null rt members ->
  forall st, Items (fst st) = nil_slice ->
  Items (fst (fold_left (unmarshal_member rt unm ty) members st)) = nil_slice.
Proof.
  induction members as [|[key v] members IH]; intros Hm st Hst; simpl.
  - exact Hst.
  - apply IH.
    + intros k w Hin. apply Hm. now right.
    + destruct st as [r saved]. apply unmarshal_member_keeps_nil.
      * apply Hm. now left.
      * exact Hst.
Qed.

Lemma Decode_keeps_nil {A : Type} (rt : Runtime)
      (unm : list json -> slice A -> slice A * option error) (ty : string)
      (bytes : string) (v : json) :
  json_parse rt bytes = inl v ->
  lacks_items rt v ->
  Items (fst (Decode rt unm ty (inl bytes) response_zero)) = nil_slice.
Proof.
  intros Hp Hl. unfold Decode. rewrite Hp. unfold unmarshal.
  destruct v; try reflexivity.
  apply unmarshal_members_keep_nil; [now apply Hl | reflexivity].
Qed.

(** C9.  When the body of a 200 response parses to a document that lacks
    the items (no member names the field, or the member is [null]) and the
    decoding reports no error, [Bikes] and [Hubs] return the nil slice, which
    has no elements, and a nil error. *)
Theorem envelope_without_items (rt : Runtime) (c : Client) (res : Response)
        (bytes : string) (v : json) :
  StatusCode res = StatusOK ->
  Body res = inl bytes ->
  json_parse rt bytes = inl v ->
  lacks_items rt v ->
  (receives rt c (bikes_url c) res ->
   snd (Decode rt (unmarshal_Bikes rt) "jump.Bike" (Body res) response_zero)
   = None ->
   Bikes rt c = (nil_slice, None) /\ elems (fst (Bikes rt c)) = [])
  /\
  (receives rt c (hubs_url c) res ->
   snd (Decode rt (unmarshal_Hubs rt) "jump.Hub" (Body res) response_zero)
   = None ->
   Hubs rt c = (nil_slice, None) /\ elems (fst (Hubs rt c)) = []).
Proof.
  intros Hs Hb Hp Hl.
  assert (Hok : negb (StatusCode res =? StatusOK)%Z = false).
  { rewrite Hs. reflexivity. }
  split; intros (req & Hreq & Hdo) Hdec.
  - assert (E : Bikes rt c = (nil_slice, None)).
    { unfold Bikes. rewrite Hreq, Hdo, Hok.
      pose proof (Decode_keeps_nil rt (unmarshal_Bikes rt) "jump.Bike"
                                   bytes v Hp Hl) as Hnil.
      rewrite Hb in *.
      destruct (Decode rt (unmarshal_Bikes rt) "jump.Bike" (inl bytes)
                       response_zero) as [parsedBody err].
      simpl in Hdec, Hnil. subst err. now rewrite Hnil. }
    now rewrite E.
  - assert (E : Hubs rt c = (nil_slice, None)).
    { unfold Hubs. rewrite Hreq, Hdo, Hok.
      pose proof (Decode_keeps_nil rt (unmarshal_Hubs rt) "jump.Hub"
                                   bytes v Hp Hl) as Hnil.
      rewrite Hb in *.
      destruct (Decode rt (unmarshal_Hubs rt) "jump.Hub" (inl bytes)
                       response_zero) as [parsedBody err].
      simpl in Hdec, Hnil. subst err. now rewrite Hnil. }
    now rewrite E.
Qed.

Lemma envelope_without_items_witness :
  Bikes (example_rt (fun _ => inl response_empty_object)) example_client
  = (nil_slice, None) /\
  Hubs (example_rt (fun _ => inl response_empty_object)) example_client
  = (nil_slice, None).
Proof.
  assert (Hl : lacks_items (example_rt (fun _ => inl response_empty_object))
                           (JObject [])).
  { intros members E. injection E as <-. intros key v []. }
  destruct (envelope_without_items
              (example_rt (fun _ => inl response_empty_object))
              example_client response_empty_object "{}" (JObject [])
              eq_refl eq_refl eq_refl Hl) as [HB HH].
  split.
  - apply HB; [eexists; split; reflexivity | reflexivity].
  - apply HH; [eexists; split; reflexivity | reflexivity].
Defined.

(* ================================================================= *)
(** ** The environment *)

(** C10.  When the variable is set and [strconv.ParseFloat] rejects its
    value, [getEnvFloat] returns an error whose text is the literal
    [error parsing env var "%s" as float], then [": "], then the text of the
    parse error: the [%s] stays as written and the text does not depend on
    the name of the variable. *)
Theorem getEnvFloat_parse_error (w : World) (name val : string)
        (f : float64) (err : error) :
  LookupEnv w name = Some val ->
  ParseFloat w val = (f, Some err) ->
  exists e,
    snd (getEnvFloat w name) = inl (f, Some e) /\
    Error e = (parse_error_text ++ ": " ++ Error err)%string /\
    strings_Contains (Error e) parse_error_text = true.
Proof.
  intros Hset Hparse.
  exists (errors_Wrap err parse_error_text). split; [|split].
  - unfold getEnvFloat. rewrite Hset, Hparse. reflexivity.
  - reflexivity.
  - change (Error (errors_Wrap err parse_error_text))
      with (parse_error_text ++ ": " ++ Error err)%string.
    apply Contains_here.
Qed.

Lemma getEnvFloat_parse_error_witness :
  exists e,
    snd (getEnvFloat
           (example_world (Some "north"%string) None
                          (nil_slice, None) (nil_slice, None) Late Late)
           "LAT")
    = inl (0%R, Some e) /\
    Error e = (parse_error_text ++ ": " ++
               Error (errorString
                        ("strconv.ParseFloat: parsing " ++ dquote ++ "north"
                           ++ dquote ++ ": invalid syntax")))%string /\
    strings_Contains (Error e) parse_error_text = true.
Proof.
  apply (getEnvFloat_parse_error _ "LAT" "north"); reflexivity.
Defined.

Lemma getEnvFloat_unset (w : World) (name : string) :
  LookupEnv w name = None ->
  exists e, getEnvFloat w name = ([EvLookupEnv name], inl (0%R, Some e)).
Proof.
  intros H. unfold getEnvFloat. rewrite H. eexists. reflexivity.
Qed.

Lemma getEnvFloat_trace (w : World) (name : string) :
  exists r, getEnvFloat w name = ([EvLookupEnv name], inl r).
Proof.
  unfold getEnvFloat.
  destruct (LookupEnv w name) as [val|]; [|eexists; reflexivity].
  destruct (ParseFloat w val) as [f [e|]]; eexists; reflexivity.
Qed.

(** C7.  When [LAT] or [LNG] is not set, [run] returns an error and all it
    has done is look variables up: no client was made and no goroutine was
    started. *)
Theorem run_missing_env (network : string) (w : World) :
  LookupEnv w "LAT" = None \/ LookupEnv w "LNG" = None ->
  exists err,
    snd (run network w) = Returns (Some err) /\
    forallb is_LookupEnv (fst (run network w)) = true.
Proof.
  intros H. unfold run, run_body.
  destruct (getEnvFloat_trace w "LAT") as [[lat e1] E1].
  destruct (LookupEnv w "LAT") as [v1|] eqn:L1.
  - destruct H as [H|H]; [discriminate|].
    destruct (getEnvFloat_unset w "LNG" H) as [e2 E2].
    rewrite E1. destruct e1 as [e1|].
    + exists e1. split; reflexivity.
    + unfold bind at 1. rewrite E2. exists e2. split; reflexivity.
  - destruct (getEnvFloat_unset w "LAT" L1) as [e E].
    rewrite E. exists e. split; reflexivity.
Qed.

Lemma run_missing_env_witness :
  exists err,
    snd (run "sf"
             (example_world (Some "0"%string) None
                            (nil_slice, None) (nil_slice, None) Early Early))
    = Returns (Some err) /\
    forallb is_LookupEnv
      (fst (run "sf"
                (example_world (Some "0"%string) None
                               (nil_slice, None) (nil_slice, None)
                               Early Early)))
    = true.
Proof.
  apply run_missing_env. right. reflexivity.
Defined.

(* ================================================================= *)
(** ** The distance *)

Local Open Scope R_scope.

Lemma PI_bounds : 3.14 < PI < 3.15.
Proof.
  generalize (PI_2_3_7_ineq 1).
  unfold sum_f_R0, tg_alt, PI_2_3_7_tg, Ratan_seq. simpl.
  intros [H1 H2]. split; lra.
Qed.

Lemma hsin_swap (a b : R) : hsin (a - b) = hsin (b - a).
Proof.
  unfold hsin. replace ((a - b) / 2) with (- ((b - a) / 2)) by lra.
  rewrite sin_neg. ring.
Qed.

Lemma hsin_0 : hsin 0 = 0.
Proof.
  unfold hsin. replace (0 / 2) with 0 by lra. rewrite sin_0. ring.
Qed.

(** C8.  The distance is symmetric in its two points. *)
Theorem distance_symmetric (lat1 lon1 lat2 lon2 : float64) :
  distance lat1 lon1 lat2 lon2 = distance lat2 lon2 lat1 lon1.
Proof.
  unfold distance. cbv zeta.
  rewrite (hsin_swap (lat2 * PI / 180)), (hsin_swap (lon2 * PI / 180)).
  rewrite (Rmult_comm (cos (lat1 * PI / 180))). reflexivity.
Qed.

Lemma distance_is_haversine (lat1 lon1 lat2 lon2 : float64) :
  distance lat1 lon1 lat2 lon2
  = haversine_formula (radians lat1) (radians lon1)
                      (radians lat2) (radians lon2).
Proof.
  unfold distance, haversine_formula, hsin, radians, earth_radius_miles, Rsqr.
  cbv zeta. do 3 f_equal. ring.
Qed.

(** Half the angle between two points of the equator, or of a meridian. *)
Lemma asin_sqrt_hsin (t : R) :
  0 <= t <= PI -> asin (sqrt (hsin t)) = t / 2.
Proof.
  intros [H0 H1]. unfold hsin.
  assert (Hs : 0 <= sin (t / 2)) by (apply sin_ge_0; lra).
  rewrite sqrt_pow2 by exact Hs.
  apply asin_sin. generalize PI_RGT_0; intros; split; lra.
Qed.

Lemma distance_on_equator (x : R) :
  0 <= x <= 180 -> distance 0 0 0 x = 3958.756 * (x * PI / 180).
Proof.
  intros Hx. unfold distance. cbv zeta.
  replace (0 * PI / 180) with 0 by lra.
  rewrite Rminus_0_r, Rminus_0_r, hsin_0, cos_0.
  replace (0 + 1 * 1 * hsin (x * PI / 180)) with (hsin (x * PI / 180)) by ring.
  rewrite asin_sqrt_hsin; [lra|].
  generalize PI_RGT_0; intros; split; nra.
Qed.

Lemma distance_on_meridian (x : R) :
  0 <= x <= 180 -> distance 0 0 x 0 = 3958.756 * (x * PI / 180).
Proof.
  intros Hx. unfold distance. cbv zeta.
  replace (0 * PI / 180) with 0 by lra.
  rewrite Rminus_0_r, Rminus_0_r, hsin_0, cos_0.
  replace (hsin (x * PI / 180) + 1 * cos (x * PI / 180) * 0)
    with (hsin (x * PI / 180)) by ring.
  rewrite asin_sqrt_hsin; [lra|].
  generalize PI_RGT_0; intros; split; nra.
Qed.

(** C5.  [distance] is the haversine formula with radius 3958.756 miles on
    inputs in degrees, and one degree along the equator or along a meridian
    from (0, 0) is within 0.5% of 69.17 miles. *)
Theorem distance_haversine_fixture :
  (forall lat1 lon1 lat2 lon2 : float64,
      distance lat1 lon1 lat2 lon2
      = haversine_formula (radians lat1) (radians lon1)
                          (radians lat2) (radians lon2)) /\
  earth_radius_miles = 3958.756 /\
  Rabs (distance 0 0 0 1 - 69.17) <= 0.005 * 69.17 /\
  Rabs (distance 0 0 1 0 - 69.17) <= 0.005 * 69.17.
Proof.
  split; [exact distance_is_haversine|]. split; [reflexivity|].
  rewrite distance_on_equator, distance_on_meridian by lra.
  generalize PI_bounds; intros [Hl Hu].
  split; apply Rabs_le; split; lra.
Qed.

Lemma distance_lon_of (d : R) :
  0 <= d <= 10000 -> distance 0 0 0 (lon_of d) = d.
Proof.
  intros Hd. generalize PI_bounds; intros [Hl Hu].
  assert (Hp : 0 < 3958.756 * PI) by nra.
  rewrite distance_on_equator.
  - unfold lon_of. field. lra.
  - unfold lon_of. split.
    + apply Rmult_le_pos; [lra | left; now apply Rinv_0_lt_compat].
    + apply (Rmult_le_reg_r (3958.756 * PI)); [exact Hp|].
      unfold Rdiv. rewrite Rmult_assoc, Rinv_l by lra. nra.
Qed.

Lemma Rltb_true (x y : R) : x < y -> Rltb x y = true.
Proof. intros H. unfold Rltb. destruct (Rlt_dec x y); [reflexivity | contradiction]. Qed.

Lemma Rltb_false (x y : R) : y <= x -> Rltb x y = false.
Proof. intros H. unfold Rltb. destruct (Rlt_dec x y); [lra | reflexivity]. Qed.

Lemma less_by_at (a b : R) :
  0 <= a <= 10000 -> 0 <= b <= 10000 ->
  less_by 0 0 [lon_of a; 0] [lon_of b; 0] = inl (Rltb a b).
Proof.
  intros Ha Hb. unfold less_by. simpl.
  now rewrite !distance_lon_of.
Qed.

Lemma bike_miles_at (name : string) (d : R) :
  0 <= d <= 10000 -> bike_miles (bike_at name d) = inl d.
Proof.
  intros Hd. unfold bike_miles. simpl. now rewrite distance_lon_of.
Qed.

Lemma less_bikes_lt (n m : string) (a b : R) :
  0 <= a <= 10000 -> 0 <= b <= 10000 -> a < b ->
  less_bikes 0 0 (bike_at n a) (bike_at m b) = inl true.
Proof.
  intros Ha Hb Hlt. unfold less_bikes. simpl.
  rewrite less_by_at by assumption. now rewrite Rltb_true.
Qed.

Lemma less_bikes_ge (n m : string) (a b : R) :
  0 <= a <= 10000 -> 0 <= b <= 10000 -> b <= a ->
  less_bikes 0 0 (bike_at n a) (bike_at m b) = inl false.
Proof.
  intros Ha Hb Hlt. unfold less_bikes. simpl.
  rewrite less_by_at by assumption. now rewrite Rltb_false.
Qed.

(** *** The steps of the insertion sort *)

Lemma sink_lt {A : Type} (less : A -> A -> P bool) (x y : A) (below : list A) :
  less x y = inl true ->
  sink less x (y :: below)
  = P_bind (sink less x below) (fun r => inl (y :: r)).
Proof. intros H. simpl. now rewrite H. Qed.

Lemma sink_ge {A : Type} (less : A -> A -> P bool) (x y : A) (below : list A) :
  less x y = inl false ->
  sink less x (y :: below) = inl (x :: y :: below).
Proof. intros H. simpl. now rewrite H. Qed.

Lemma sink_nil {A : Type} (less : A -> A -> P bool) (x : A) :
  sink less x [] = inl [x].
Proof. reflexivity. Qed.

Ltac sink_bikes :=
  repeat first
    [ rewrite sink_nil
    | rewrite sink_lt by (apply less_bikes_lt; lra)
    | rewrite sink_ge by (apply less_bikes_ge; lra)
    | progress cbn [P_bind insertionSort_from] ].

Lemma six_bikes_sorted :
  insertionSort (less_bikes 0 0) six_bikes = inl six_bikes_ranked.
Proof.
  unfold insertionSort, six_bikes. sink_bikes. reflexivity.
Qed.

Lemma six_bikes_sort_Slice :
  sort_Slice (less_bikes 0 0) (slice_of six_bikes)
  = inl (slice_of six_bikes_ranked).
Proof.
  unfold sort_Slice.
  change (elems (slice_of six_bikes)) with six_bikes.
  rewrite six_bikes_sorted. reflexivity.
Qed.

Lemma sort_Slice_nil {A : Type} (less : A -> A -> P bool) :
  sort_Slice less nil_slice = inl nil_slice.
Proof. reflexivity. Qed.

Lemma getEnvFloat_zero (w : World) (name : string) :
  LookupEnv w name = Some "0"%string ->
  ParseFloat w "0" = (0, None) ->
  getEnvFloat w name = ([EvLookupEnv name], inl (0, None)).
Proof.
  intros H1 H2. unfold getEnvFloat. rewrite H1, H2. reflexivity.
Qed.

Ltac run_start :=
  unfold run, run_body;
  rewrite !getEnvFloat_zero by reflexivity.

Ltac run_steps :=
  cbn [bind ret emit return_ liftP doAsync select arrived negb app fst snd
       for_range callBikes callHubs bikesArrival hubsArrival example_world
       slice_high cap arr len elems firstn List.length Nat.leb slice_of
       index nth_error Coordinates Bike.CurrentPosition Bike.Name
       Bike.Address Bike.EbikeBatteryLevel bike_at
       Hub.MiddlePoint Hub.Name Hub.Address Hub.AvailableBikes
       Hub.AvailableEbikes hub_at six_bikes_ranked].

Lemma run_six_bikes :
  run "sf" world_six_bikes
  = (trace_start "sf" ++
     [EvSelect FetchBikes true; EvRead v_bikesErr; EvRead v_bikes;
      EvPrintln "Bikes"; EvRead v_bikes;
      bike_line "d" 5; bike_line "b" 10; bike_line "f" 20;
      bike_line "c" 30; bike_line "a" 50;
      EvPrintln EmptyString;
      EvRead v_hubs; EvSelect FetchHubs false],
     Returns (Some (fmt_Errorf "timed out waiting for hubs response" []))).
Proof.
  run_start. unfold world_six_bikes. run_steps.
  rewrite six_bikes_sort_Slice. run_steps.
  rewrite !distance_lon_of by lra.
  rewrite sort_Slice_nil. run_steps.
  reflexivity.
Qed.

(** C4.  The six bikes are 50, 10, 30, 5, 100 and 20 miles from (0, 0);
    [sort.Slice] with the closure of [run] puts the whole list in the order
    5, 10, 20, 30, 50, 100; and what [run] prints is the first five of them,
    without the bike at 100 miles. *)
Theorem six_bikes_ranking :
  map bike_miles six_bikes = map inl [50; 10; 30; 5; 100; 20] /\
  sort_Slice (less_bikes 0 0) (slice_of six_bikes)
  = inl (slice_of six_bikes_ranked) /\
  map bike_miles six_bikes_ranked = map inl [5; 10; 20; 30; 50; 100] /\
  printed (fst (run "sf" world_six_bikes)) = six_bikes_section /\
  ~ In (bike_line "e" 100) (fst (run "sf" world_six_bikes)).
Proof.
  split; [|split; [|split; [|split]]].
  - unfold six_bikes. cbn [map]. now rewrite !bike_miles_at by lra.
  - exact six_bikes_sort_Slice.
  - unfold six_bikes_ranked. cbn [map]. now rewrite !bike_miles_at by lra.
  - rewrite run_six_bikes. reflexivity.
  - rewrite run_six_bikes. cbn [fst trace_start app In].
    intros H. repeat (destruct H as [H|H]; [discriminate H|]). exact H.
Qed.

Lemma less_hubs_lt (n m : string) (a b : R) :
  0 <= a <= 10000 -> 0 <= b <= 10000 -> a < b ->
  less_hubs 0 0 (hub_at n a) (hub_at m b) = inl true.
Proof.
  intros Ha Hb Hlt. unfold less_hubs. simpl.
  rewrite less_by_at by assumption. now rewrite Rltb_true.
Qed.

Lemma less_hubs_ge (n m : string) (a b : R) :
  0 <= a <= 10000 -> 0 <= b <= 10000 -> b <= a ->
  less_hubs 0 0 (hub_at n a) (hub_at m b) = inl false.
Proof.
  intros Ha Hb Hlt. unfold less_hubs. simpl.
  rewrite less_by_at by assumption. now rewrite Rltb_false.
Qed.

Ltac sink_hubs :=
  repeat first
    [ rewrite sink_nil
    | rewrite sink_lt by (apply less_hubs_lt; lra)
    | rewrite sink_ge by (apply less_hubs_ge; lra)
    | progress cbn [P_bind insertionSort_from] ].

Lemma three_bikes_sort_Slice :
  sort_Slice (less_bikes 0 0) three_bikes
  = inl (mkSlice [bike_at "b" 10; bike_at "c" 20; bike_at "a" 30; Bike.zero]
                 3).
Proof.
  unfold sort_Slice, three_bikes, elems, insertionSort.
  cbn [len arr firstn skipn]. sink_bikes. reflexivity.
Qed.

Lemma two_hubs_sort_Slice :
  sort_Slice (less_hubs 0 0) two_hubs
  = inl (slice_of [hub_at "y" 10; hub_at "x" 20]).
Proof.
  unfold sort_Slice, two_hubs, elems, slice_of, insertionSort.
  cbn [len arr firstn skipn List.length]. sink_hubs. reflexivity.
Qed.

Lemma slice_high_short {A : Type} (s : slice A) (high : nat) :
  (cap s < high)%nat ->
  slice_high s high = inr (SliceBoundsOutOfRange high (cap s)).
Proof.
  intros H. unfold slice_high.
  destruct (Nat.leb_spec high (cap s)); [lia | reflexivity].
Qed.

(** C1.  With three bikes (in a backing array of four) [run] sorts them,
    prints the header and panics at [bikes[:5]]; with six bikes and two hubs
    it prints the bikes and the hubs header and panics at [hubs[:5]].  In
    neither case is a record of the short list printed. *)
Theorem run_short_lists_panic :
  run "sf" world_three_bikes
  = (trace_start "sf" ++
     [EvSelect FetchBikes true; EvRead v_bikesErr; EvRead v_bikes;
      EvPrintln "Bikes"; EvRead v_bikes],
     Panics (SliceBoundsOutOfRange 5 4)) /\
  run "sf" world_two_hubs
  = (trace_start "sf" ++
     six_bikes_trace ++
     [EvRead v_hubs; EvSelect FetchHubs true; EvRead v_hubsErr;
      EvPrintln "Hubs"; EvRead v_hubs],
     Panics (SliceBoundsOutOfRange 5 2)).
Proof.
  split.
  - run_start. unfold world_three_bikes. run_steps.
    rewrite three_bikes_sort_Slice. run_steps. reflexivity.
  - run_start. unfold world_two_hubs. run_steps.
    rewrite six_bikes_sort_Slice. run_steps.
    rewrite !distance_lon_of by lra.
    rewrite two_hubs_sort_Slice. run_steps. reflexivity.
Qed.


(** C3.  Both fetches succeed and the hubs fetch returns while the bikes
    are being printed or later.  The main flow reads [hubs] for the sort
    before the select on [hubsDone]; the sort finds no hubs, and the five
    hubs are printed in the order of the response, farthest first. *)
Theorem run_sorts_hubs_before_wait :
  run "sf" world_hubs_after_sort
  = (trace_start "sf" ++
     six_bikes_trace ++
     [EvRead v_hubs; EvSelect FetchHubs true; EvRead v_hubsErr;
      EvPrintln "Hubs"; EvRead v_hubs;
      hub_line "p" 50; hub_line "q" 40; hub_line "r" 30; hub_line "s" 20;
      hub_line "t" 10],
     Returns None).
Proof.
  run_start. unfold world_hubs_after_sort. run_steps.
  rewrite six_bikes_sort_Slice. run_steps.
  rewrite !distance_lon_of by lra.
  rewrite sort_Slice_nil. unfold five_hubs. run_steps.
  rewrite !distance_lon_of by lra.
  reflexivity.
Qed.

(* ================================================================= *)
(** ** What holds of every execution *)

Local Close Scope R_scope.

Section Sat.
Context (Q : event -> bool) (O : outcome -> Prop).

Lemma sat_ret {A} (V : A -> Prop) (a : A) : V a -> sat Q O V (ret a).
Proof. intros H. split; [reflexivity | exact H]. Qed.

Lemma sat_emit (V : unit -> Prop) (e : event) :
  Q e = true -> V tt -> sat Q O V (emit e).
Proof. intros HQ HV. split; [simpl; now rewrite HQ | exact HV]. Qed.

Lemma sat_return {A} (V : A -> Prop) (err : option error) :
  O (Returns err) -> sat Q O V (return_ err).
Proof. intros H. split; [reflexivity | exact H]. Qed.

Lemma sat_liftP {A} (V : A -> Prop) (m : P A) :
  (forall a, m = inl a -> V a) ->
  (forall p, m = inr p -> O (Panics p)) ->
  sat Q O V (liftP m).
Proof.
  intros HV HO. destruct m as [a|p]; (split; [reflexivity|]); simpl; auto.
Qed.

Lemma sat_bind {A B} (V' : A -> Prop) (V : B -> Prop)
      (m : M A) (f : A -> M B) :
  sat Q O V' m -> (forall a, V' a -> sat Q O V (f a)) ->
  sat Q O V (bind m f).
Proof.
  unfold sat, bind. intros [Ht Hr] Hf. destruct m as [t [a|o]]; simpl in *.
  - specialize (Hf a Hr). destruct (f a) as [t' r'].
    destruct Hf as [Ht' Hr']. simpl in *. split; [|exact Hr'].
    rewrite forallb_app, Ht, Ht'. reflexivity.
  - split; assumption.
Qed.

Lemma sat_for_range {A} (V : unit -> Prop) (l : list A)
      (body : A -> M unit) :
  (forall x, sat Q O (fun _ => True) (body x)) -> V tt ->
  sat Q O V (for_range l body).
Proof.
  intros Hb HV. induction l as [|x l IH]; simpl.
  - now apply sat_ret.
  - apply (sat_bind (fun _ => True)); [apply Hb | intros _ _; exact IH].
Qed.

Lemma sat_getEnvFloat (w : World) (name : string) :
  Q (EvLookupEnv name) = true ->
  sat Q O (fun _ => True) (getEnvFloat w name).
Proof.
  intros HQ. destruct (getEnvFloat_trace w name) as [r E]. rewrite E.
  split; [simpl; now rewrite HQ | exact I].
Qed.

Lemma sat_doAsync (f : fetch) :
  Q (EvGo f) = true -> sat Q O (fun _ => True) (doAsync f).
Proof. intros HQ. split; [simpl; now rewrite HQ | exact I]. Qed.

Lemma sat_select (ch : fetch) (a : arrival) :
  Q (EvSelect ch (arrived a)) = true ->
  sat Q O (fun done => done = arrived a) (select ch a).
Proof. intros HQ. split; [simpl; now rewrite HQ | reflexivity]. Qed.
End Sat.

Lemma run_of_body (network : string) (w : World)
      (Q : event -> bool) (O : outcome -> Prop) :
  sat Q O (fun _ => False) (run_body network w) ->
  forallb Q (fst (run network w)) = true /\ O (snd (run network w)).
Proof.
  unfold run. intros [Ht Hr].
  destruct (run_body network w) as [t [u|o]]; simpl in *; [contradiction|].
  split; assumption.
Qed.

Lemma not_print_printed (t : list event) :
  forallb not_print t = true -> printed t = [].
Proof.
  induction t as [|e t IH]; simpl; [reflexivity|].
  unfold not_print at 1. destruct (is_print e); simpl; [discriminate | exact IH].
Qed.

Ltac sat_step :=
  match goal with
  | |- sat _ _ _ (bind (getEnvFloat _ _) _) =>
      eapply sat_bind; [apply sat_getEnvFloat; reflexivity | intros [? ?] _]
  | |- sat _ _ _ (bind (doAsync _) _) =>
      eapply sat_bind; [apply sat_doAsync; reflexivity | intros ? _]
  | |- sat _ _ _ (bind (select _ _) _) =>
      eapply sat_bind; [apply sat_select; reflexivity | intros ? ->]
  | |- sat _ _ _ (bind (emit _) _) =>
      eapply (sat_bind _ _ (fun _ => True));
      [apply sat_emit; [reflexivity | exact I] | intros _ _]
  | |- sat _ _ _ (bind (liftP _) _) =>
      eapply (sat_bind _ _ (fun _ => True));
      [apply sat_liftP; [intros; exact I | intros; unfold failed; discriminate]
      | intros ? _]
  | |- sat _ _ _ (bind (for_range _ _) _) =>
      eapply (sat_bind _ _ (fun _ => True));
      [apply sat_for_range; [intros ? | exact I] | intros _ _]
  | |- sat _ _ _ (emit _) => apply sat_emit; [reflexivity | exact I]
  | |- sat _ _ _ (return_ (Some _)) =>
      apply sat_return; unfold failed; discriminate
  | |- sat _ _ _ (match ?x with Some _ => _ | None => _ end) =>
      destruct x eqn:?
  | |- sat _ _ _ (let '(_, _) := ?x in _) => destruct x eqn:?
  end.

Lemma run_body_bikes_fail (network : string) (w : World) :
  bikes_fetch_fails network w ->
  sat not_print failed (fun _ => False) (run_body network w).
Proof.
  intros Hf. unfold run_body. repeat sat_step.
  destruct (arrived (bikesArrival w)) eqn:Ha; simpl negb; cbv iota.
  - repeat sat_step.
    exfalso. destruct Hf as [Hf|Hf]; [congruence|]. apply Hf.
    match goal with H : callBikes _ _ = _ |- _ => now rewrite H end.
  - sat_step.
Qed.

Lemma run_body_hubs_fail (network : string) (w : World) :
  hubs_fetch_fails network w ->
  sat not_hubs_line failed (fun _ => False) (run_body network w).
Proof.
  intros Hf. unfold run_body. repeat sat_step.
  destruct (arrived (bikesArrival w)) eqn:Ha; simpl negb; cbv iota;
    [|sat_step].
  repeat sat_step.
  destruct (arrived (hubsArrival w)) eqn:Hh; simpl negb; cbv iota;
    [|sat_step].
  repeat sat_step.
  exfalso. destruct Hf as [Hf|Hf]; [congruence|]. apply Hf.
  match goal with H : callHubs _ _ = _ |- _ => now rewrite H end.
Qed.



(* ================================================================= *)
(** ** More on the distance *)

Local Open Scope R_scope.

Lemma asin_nonneg (x : R) : 0 <= x -> 0 <= asin x.
Proof.
  intros Hx. unfold asin. generalize PI_RGT_0; intros HPI.
  destruct (Rle_dec x (-1)); [lra|].
  destruct (Rle_dec 1 x); [lra|].
  assert (Hs : 0 < sqrt (1 - x²)).
  { apply sqrt_lt_R0. unfold Rsqr. nra. }
  destruct Hx as [Hx|<-].
  - left. rewrite <- atan_0. apply atan_increasing.
    apply Rdiv_lt_0_compat; assumption.
  - unfold Rdiv. rewrite Rmult_0_l, atan_0. lra.
Qed.

(** X1.  The distance from a point to itself is zero. *)
Theorem distance_self (lat lon : float64) : distance lat lon lat lon = 0.
Proof.
  unfold distance. cbv zeta.
  rewrite !Rminus_diag, hsin_0.
  replace (0 + cos (lat * PI / 180) * cos (lat * PI / 180) * 0) with 0 by ring.
  rewrite sqrt_0, asin_0. ring.
Qed.

(** X2.  A distance is never negative and never more than half the
    circumference of the sphere of radius 3958.756 miles. *)
Theorem distance_range (lat1 lon1 lat2 lon2 : float64) :
  0 <= distance lat1 lon1 lat2 lon2 <= 3958.756 * PI.
Proof.
  unfold distance. cbv zeta.
  set (h := hsin _ + _).
  pose proof (asin_nonneg (sqrt h) (sqrt_pos h)) as H0.
  pose proof (asin_bound (sqrt h)) as [_ H1].
  split; nra.
Qed.

Lemma hsin_period (x : R) : hsin (x + 2 * PI) = hsin x.
Proof.
  unfold hsin. replace ((x + 2 * PI) / 2) with (x / 2 + PI) by lra.
  rewrite neg_sin. ring.
Qed.

(** X3.  The distance depends on the two longitudes through their
    difference only, and a full turn of 360 degrees added to a longitude
    does not change it. *)
Theorem distance_longitude (lat1 lon1 lat2 lon2 shift : float64) :
  distance lat1 (lon1 + shift) lat2 (lon2 + shift)
  = distance lat1 lon1 lat2 lon2 /\
  distance lat1 lon1 lat2 (lon2 + 360) = distance lat1 lon1 lat2 lon2.
Proof.
  unfold distance. cbv zeta. split.
  - replace ((lon2 + shift) * PI / 180 - (lon1 + shift) * PI / 180)
      with (lon2 * PI / 180 - lon1 * PI / 180) by lra.
    reflexivity.
  - replace ((lon2 + 360) * PI / 180 - lon1 * PI / 180)
      with (lon2 * PI / 180 - lon1 * PI / 180 + 2 * PI) by lra.
    now rewrite hsin_period.
Qed.

(** X4.  Along a meridian the distance is the length of the arc: for two
    points of the same longitude whose latitudes are up to 180 degrees
    apart, it is the radius times the difference of the latitudes in
    radians. *)
Theorem distance_along_meridian (lat1 lat2 lon : float64) :
  lat1 <= lat2 <= lat1 + 180 ->
  distance lat1 lon lat2 lon = 3958.756 * ((lat2 - lat1) * PI / 180).
Proof.
  intros H. unfold distance. cbv zeta.
  rewrite Rminus_diag, hsin_0.
  replace (hsin (lat2 * PI / 180 - lat1 * PI / 180) +
           cos (lat1 * PI / 180) * cos (lat2 * PI / 180) * 0)
    with (hsin ((lat2 - lat1) * PI / 180)).
  2:{ replace (lat2 * PI / 180 - lat1 * PI / 180)
        with ((lat2 - lat1) * PI / 180) by lra. ring. }
  rewrite asin_sqrt_hsin; [lra|].
  generalize PI_RGT_0; intros; split; nra.
Qed.

Lemma distance_along_meridian_witness :
  37 <= 38 <= 37 + 180 /\
  distance 37 (-122) 38 (-122) = 3958.756 * ((38 - 37) * PI / 180).
Proof.
  split; [lra | apply distance_along_meridian; lra].
Defined.

Local Close Scope R_scope.

(* ================================================================= *)
(** ** More on the client *)

Lemma Error_Wrap (err : error) (message : string) :
  Error (errors_Wrap err message) = (message ++ ": " ++ Error err)%string.
Proof. reflexivity. Qed.

(** X5.  An error of [Bikes] or [Hubs] comes with the nil slice and is the
    wrapping of a cause under the name of the method: its text starts with
    [jump.Bikes: ] or [jump.Hubs: ]. *)
Theorem client_errors_are_wrapped (rt : Runtime) (c : Client) :
  (forall s e, Bikes rt c = (s, Some e) ->
     s = nil_slice /\
     exists cause, e = errors_Wrap cause "jump.Bikes" /\
                   Error e = ("jump.Bikes: " ++ Error cause)%string) /\
  (forall s e, Hubs rt c = (s, Some e) ->
     s = nil_slice /\
     exists cause, e = errors_Wrap cause "jump.Hubs" /\
                   Error e = ("jump.Hubs: " ++ Error cause)%string).
Proof.
  split; intros s e; [unfold Bikes | unfold Hubs];
    (destruct (newRequest rt c _) as [req|err];
     [destruct (http_Do rt (httpClient c) req) as [res|err];
      [destruct (negb (StatusCode res =? StatusOK)%Z);
       [|destruct (Decode rt _ _ (Body res) response_zero) as [p [err|]]]|]|]);
    intros E; inversion E; subst;
    (split; [reflexivity | eexists; split; reflexivity]).
Qed.

Lemma client_errors_are_wrapped_witness :
  exists cause,
    status_error "jump.Bikes" response_404 = errors_Wrap cause "jump.Bikes" /\
    Error (status_error "jump.Bikes" response_404)
    = ("jump.Bikes: " ++ Error cause)%string.
Proof.
  apply (proj1 (client_errors_are_wrapped
                  (example_rt (fun _ => inl response_404)) example_client)
               nil_slice).
  reflexivity.
Defined.

(** X6.  [Bikes] returns a nil error exactly when the request is built, it
    is answered, the status is 200 and the decoding reports no error; the
    list is then the [Items] of the decoded envelope.  The same holds of
    [Hubs]. *)
Theorem client_success (rt : Runtime) (c : Client) :
  (forall items,
      Bikes rt c = (items, None) <->
      exists req res parsed,
        newRequest rt c (bikes_url c) = inl req /\
        http_Do rt (httpClient c) req = inl res /\
        StatusCode res = StatusOK /\
        Decode rt (unmarshal_Bikes rt) "jump.Bike" (Body res) response_zero
        = (parsed, None) /\
        Items parsed = items) /\
  (forall items,
      Hubs rt c = (items, None) <->
      exists req res parsed,
        newRequest rt c (hubs_url c) = inl req /\
        http_Do rt (httpClient c) req = inl res /\
        StatusCode res = StatusOK /\
        Decode rt (unmarshal_Hubs rt) "jump.Hub" (Body res) response_zero
        = (parsed, None) /\
        Items parsed = items).
Proof.
  split; intros items; [unfold Bikes | unfold Hubs]; (split;
    [ destruct (newRequest rt c _) as [req|err] eqn:Hreq; [|discriminate];
      destruct (http_Do rt (httpClient c) req) as [res|err] eqn:Hdo;
        [|discriminate];
      destruct (StatusCode res =? StatusOK)%Z eqn:Hs; simpl negb; cbv iota;
        [|discriminate];
      destruct (Decode rt _ _ (Body res) response_zero) as [p [err|]] eqn:Hd;
        [discriminate|];
      intros E; inversion E; subst;
      exists req, res, p; repeat split; try assumption; try reflexivity;
      now apply Z.eqb_eq
    | intros (req & res & p & Hreq & Hdo & Hs & Hd & Hi);
      rewrite Hreq, Hdo, Hs, Hd, Hi; reflexivity ]).
Qed.

Lemma client_success_witness :
  exists req res parsed,
    newRequest (example_rt (fun _ => inl response_empty_object))
               example_client (bikes_url example_client) = inl req /\
    http_Do (example_rt (fun _ => inl response_empty_object))
            (httpClient example_client) req = inl res /\
    StatusCode res = StatusOK /\
    Decode (example_rt (fun _ => inl response_empty_object))
           (unmarshal_Bikes (example_rt (fun _ => inl response_empty_object)))
           "jump.Bike" (Body res) response_zero
    = (parsed, None) /\
    Items parsed = nil_slice.
Proof.
  apply (proj1 (client_success
                  (example_rt (fun _ => inl response_empty_object))
                  example_client)).
  reflexivity.
Defined.

(** X7.  The earlier revision of [Bikes], which builds its request in
    place, returns what the present one returns. *)
Theorem Bikes_rev1_agrees (rt : Runtime) (c : Client) :
  jump_rev1.Bikes rt c = Bikes rt c.
Proof.
  unfold jump_rev1.Bikes, Bikes, newRequest.
  destruct (http_NewRequest rt "GET" (bikes_url c)); reflexivity.
Qed.

(** X8.  A 200 response whose body cannot be read, or does not parse, or
    parses to an array, a string, a number or a boolean, makes [Bikes] and
    [Hubs] return an error, not an empty list. *)
Theorem undecodable_body_is_an_error (rt : Runtime) (c : Client)
        (res : Response) :
  StatusCode res = StatusOK ->
  (exists e, Body res = inr e) \/
  (exists bytes e, Body res = inl bytes /\ json_parse rt bytes = inr e) \/
  (exists bytes v, Body res = inl bytes /\ json_parse rt bytes = inl v /\
                   v <> JNull /\ forall members, v <> JObject members) ->
  (receives rt c (bikes_url c) res ->
   exists e, Bikes rt c = (nil_slice, Some e)) /\
  (receives rt c (hubs_url c) res ->
   exists e, Hubs rt c = (nil_slice, Some e)).
Proof.
  intros Hs Hbody.
  assert (Hd : forall (A : Type) unm ty,
             exists (p : response A) e,
               Decode rt unm ty (Body res) response_zero = (p, Some e)).
  { intros A unm ty. unfold Decode.
    destruct Hbody as [[e ->]|[(bytes & e & -> & ->)|(bytes & v & -> & -> & Hn & Ho)]].
    - eexists _, _; reflexivity.
    - eexists _, _; reflexivity.
    - unfold unmarshal. destruct v; try (eexists _, _; reflexivity).
      + now destruct Hn.
      + now destruct (Ho members). }
  split; intros (req & Hreq & Hdo); [unfold Bikes | unfold Hubs];
    rewrite Hreq, Hdo, Hs; simpl negb; cbv iota.
  - destruct (Hd _ (unmarshal_Bikes rt) "jump.Bike"%string) as (p & e & ->).
    eexists; reflexivity.
  - destruct (Hd _ (unmarshal_Hubs rt) "jump.Hub"%string) as (p & e & ->).
    eexists; reflexivity.
Qed.

Lemma undecodable_body_is_an_error_witness :
  exists e,
    Bikes (example_rt (fun _ => inl (mkHttpResponse 200 (inl "<html>"%string))))
          example_client
    = (nil_slice, Some e).
Proof.
  apply (proj1 (undecodable_body_is_an_error
                  (example_rt
                     (fun _ => inl (mkHttpResponse 200 (inl "<html>"%string))))
                  example_client
                  (mkHttpResponse 200 (inl "<html>"%string))
                  eq_refl
                  (or_intror (or_introl
                     (ex_intro _ "<html>"%string
                        (ex_intro _ (errorString "invalid character")
                                  (conj eq_refl eq_refl))))))).
  eexists; split; reflexivity.
Defined.

(* ================================================================= *)
(** ** More on the environment *)

(** X9.  For a variable that is not set, [getEnvFloat] returns 0 and an
    error that names the variable: [envvar "NAME" not set]. *)
Theorem getEnvFloat_unset_text (w : World) (name : string) :
  LookupEnv w name = None ->
  exists e,
    snd (getEnvFloat w name) = inl (0%R, Some e) /\
    Error e = ("envvar " ++ dquote ++ name ++ dquote ++ " not set")%string.
Proof.
  intros H. unfold getEnvFloat. rewrite H.
  eexists. split; [reflexivity|].
  cbn. reflexivity.
Qed.

Lemma getEnvFloat_unset_text_witness :
  exists e,
    snd (getEnvFloat
           (example_world None None (nil_slice, None) (nil_slice, None)
                          Late Late) "LNG")
    = inl (0%R, Some e) /\
    Error e = ("envvar " ++ dquote ++ "LNG" ++ dquote ++ " not set")%string.
Proof.
  apply getEnvFloat_unset_text. reflexivity.
Defined.

(** X10.  [getEnvFloat] returns a nil error exactly when the variable is
    set and [strconv.ParseFloat] accepts its value, and the float is then
    the parsed one. *)
Theorem getEnvFloat_ok (w : World) (name : string) (f : float64) :
  snd (getEnvFloat w name) = inl (f, None) <->
  exists val, LookupEnv w name = Some val /\ ParseFloat w val = (f, None).
Proof.
  unfold getEnvFloat. split.
  - destruct (LookupEnv w name) as [val|]; [|discriminate].
    destruct (ParseFloat w val) as [g [e|]] eqn:Hp; [discriminate|].
    intros E. inversion E. subst. exists val. now split.
  - intros (val & -> & ->). reflexivity.
Qed.

Lemma getEnvFloat_ok_witness :
  snd (getEnvFloat
         (example_world (Some "0"%string) None (nil_slice, None)
                        (nil_slice, None) Late Late) "LAT")
  = inl (0%R, None).
Proof.
  apply getEnvFloat_ok. exists "0"%string. split; reflexivity.
Defined.



(* ================================================================= *)
(** ** The order of the events of an execution *)

Section Hoare.
Context {S : Type} (step : S -> event -> option S).

Lemma scan_app (s : S) (t t' : list event) :
  scan step s (t ++ t')
  = match scan step s t with
    | Some s' => scan step s' t'
    | None => None
    end.
Proof.
  revert s. induction t as [|e t IH]; intros s; simpl; [reflexivity|].
  destruct (step s e); [apply IH | reflexivity].
Qed.

Lemma hoare_bind {A B} (s : S) (m : M A) (f : A -> M B)
      (mid : A -> S -> Prop) (post : B -> S -> Prop)
      (exit : outcome -> S -> Prop) :
  hoare step s m mid exit ->
  (forall a s1, mid a s1 -> hoare step s1 (f a) post exit) ->
  hoare step s (bind m f) post exit.
Proof.
  unfold hoare, bind. intros (s1 & Hs & Hm) Hf.
  destruct m as [t [a|o]]; simpl in *.
  - destruct (Hf a s1 Hm) as (s2 & Hs2 & Hr).
    destruct (f a) as [t' r]. simpl in *.
    exists s2. rewrite scan_app, Hs. split; assumption.
  - exists s1. split; assumption.
Qed.

Lemma hoare_return {A} (s : S) (err : option error)
      (post : A -> S -> Prop) (exit : outcome -> S -> Prop) :
  exit (Returns err) s -> hoare step s (return_ err) post exit.
Proof. intros H. exists s. split; [reflexivity | exact H]. Qed.

Lemma hoare_emit (s s' : S) (e : event)
      (post : unit -> S -> Prop) (exit : outcome -> S -> Prop) :
  step s e = Some s' -> post tt s' -> hoare step s (emit e) post exit.
Proof.
  intros Hs Hp. exists s'. simpl. rewrite Hs. split; [reflexivity | exact Hp].
Qed.

Lemma hoare_emit_bind {B} (s s' : S) (e : event) (k : unit -> M B)
      (post : B -> S -> Prop) (exit : outcome -> S -> Prop) :
  step s e = Some s' ->
  hoare step s' (k tt) post exit ->
  hoare step s (bind (emit e) k) post exit.
Proof.
  intros Hs Hk. apply (hoare_bind _ _ _ (fun _ s1 => s1 = s')).
  - apply (hoare_emit s s'); [exact Hs | reflexivity].
  - intros [] s1 ->. exact Hk.
Qed.

Lemma hoare_liftP_bind {A B} (s : S) (m : P A) (k : A -> M B)
      (post : B -> S -> Prop) (exit : outcome -> S -> Prop) :
  (forall a, m = inl a -> hoare step s (k a) post exit) ->
  (forall p, m = inr p -> exit (Panics p) s) ->
  hoare step s (bind (liftP m) k) post exit.
Proof.
  intros Hk Hp. apply (hoare_bind _ _ _ (fun a s1 => s1 = s /\ m = inl a)).
  - exists s. destruct m as [a|p]; simpl; split; auto.
  - intros a s1 [-> Hm]. now apply Hk.
Qed.

Lemma hoare_getEnvFloat_bind {B} (s s' : S) (w : World) (name : string)
      (k : float64 * option error -> M B)
      (post : B -> S -> Prop) (exit : outcome -> S -> Prop) :
  step s (EvLookupEnv name) = Some s' ->
  (forall r, snd (getEnvFloat w name) = inl r ->
             hoare step s' (k r) post exit) ->
  hoare step s (bind (getEnvFloat w name) k) post exit.
Proof.
  intros Hs Hk.
  apply (hoare_bind _ _ _
           (fun r s1 => s1 = s' /\ snd (getEnvFloat w name) = inl r)).
  - destruct (getEnvFloat_trace w name) as [r E]. rewrite E.
    exists s'. simpl. rewrite Hs. auto.
  - intros r s1 [-> Hr]. now apply Hk.
Qed.

Lemma hoare_doAsync_bind {B} (s s' : S) (f : fetch) (k : fetch -> M B)
      (post : B -> S -> Prop) (exit : outcome -> S -> Prop) :
  step s (EvGo f) = Some s' ->
  hoare step s' (k f) post exit ->
  hoare step s (bind (doAsync f) k) post exit.
Proof.
  intros Hs Hk. apply (hoare_bind _ _ _ (fun a s1 => s1 = s' /\ a = f)).
  - exists s'. simpl. rewrite Hs. auto.
  - intros a s1 [-> ->]. exact Hk.
Qed.

Lemma hoare_select_bind {B} (s s' : S) (ch : fetch) (a : arrival)
      (k : bool -> M B)
      (post : B -> S -> Prop) (exit : outcome -> S -> Prop) :
  step s (EvSelect ch (arrived a)) = Some s' ->
  hoare step s' (k (arrived a)) post exit ->
  hoare step s (bind (select ch a) k) post exit.
Proof.
  intros Hs Hk.
  apply (hoare_bind _ _ _ (fun d s1 => s1 = s' /\ d = arrived a)).
  - exists s'. simpl. rewrite Hs. auto.
  - intros d s1 [-> ->]. exact Hk.
Qed.

Lemma hoare_for_range {A} (Inv : list A -> S -> Prop) (s : S) (l : list A)
      (body : A -> M unit) (exit : outcome -> S -> Prop) :
  Inv l s ->
  (forall x rest s1, Inv (x :: rest) s1 ->
     hoare step s1 (body x) (fun _ s2 => Inv rest s2) exit) ->
  hoare step s (for_range l body) (fun _ s' => Inv [] s') exit.
Proof.
  intros Hi Hb. revert s Hi. induction l as [|x l IH]; intros s Hi; simpl.
  - exists s. split; [reflexivity | exact Hi].
  - apply (hoare_bind _ _ _ (fun _ s2 => Inv l s2)); [now apply Hb|].
    intros _ s1 H1. now apply IH.
Qed.

Lemma hoare_for_range_bind {A B} (Inv : list A -> S -> Prop) (s : S)
      (l : list A) (body : A -> M unit) (k : unit -> M B)
      (post : B -> S -> Prop) (exit : outcome -> S -> Prop) :
  Inv l s ->
  (forall x rest s1, Inv (x :: rest) s1 ->
     hoare step s1 (body x) (fun _ s2 => Inv rest s2) exit) ->
  (forall s', Inv [] s' -> hoare step s' (k tt) post exit) ->
  hoare step s (bind (for_range l body) k) post exit.
Proof.
  intros Hi Hb Hk. apply (hoare_bind _ _ _ (fun _ s' => Inv [] s')).
  - now apply hoare_for_range.
  - intros [] s'. apply Hk.
Qed.

Lemma hoare_run (network : string) (w : World) (s : S)
      (exit : outcome -> S -> Prop) :
  hoare step s (run_body network w) (fun _ _ => False) exit ->
  exists s', scan step s (fst (run network w)) = Some s' /\
             exit (snd (run network w)) s'.
Proof.
  unfold run. intros (s' & Hs & Hr).
  destruct (run_body network w) as [t [u|o]]; simpl in *; [contradiction|].
  exists s'. split; assumption.
Qed.
End Hoare.

Ltac hoare_step :=
  lazymatch goal with
  | |- hoare _ _ (bind (getEnvFloat _ _) _) _ _ =>
      eapply hoare_getEnvFloat_bind; [reflexivity | intros [? ?] ?]
  | |- hoare _ _ (bind (doAsync _) _) _ _ =>
      eapply hoare_doAsync_bind; [reflexivity|]
  | |- hoare _ _ (bind (select _ _) _) _ _ =>
      eapply hoare_select_bind; [reflexivity|]
  | |- hoare _ _ (bind (emit _) _) _ _ =>
      eapply hoare_emit_bind; [reflexivity|]
  | |- hoare _ _ (bind (liftP _) _) _ _ =>
      apply hoare_liftP_bind; [intros ? ? | intros; exact I]
  | |- hoare _ ?s (bind (for_range _ _) _) _ _ =>
      apply (hoare_for_range_bind _ (fun _ s1 => s1 = s));
      [reflexivity | intros ? ? ? -> | intros ? ->]
  | |- hoare _ _ (emit _) _ _ =>
      eapply hoare_emit; [reflexivity | reflexivity]
  | |- hoare _ _ (return_ _) _ _ => apply hoare_return; exact I
  | |- hoare _ _ (match ?x with Some _ => _ | None => _ end) _ _ =>
      destruct x
  | |- hoare _ _ (let '(_, _) := ?x in _) _ _ => destruct x
  | |- hoare _ _ (if negb ?b then _ else _) _ _ =>
      destruct b eqn:?; simpl negb; cbv iota
  end.

(** In every execution the main flow reads [bikes] and [bikesErr]
    only after the select on [bikesDone] has been resolved by the channel,
    and [hubsErr] only after the select on [hubsDone] has. *)
Theorem reads_are_guarded (network : string) (w : World) :
  accepts guard_step (false, false) (fst (run network w)) = true.
Proof.
  destruct (hoare_run guard_step network w (false, false) (fun _ _ => True))
    as (s' & Hs & _).
  - unfold run_body. repeat hoare_step.
  - unfold accepts. now rewrite Hs.
Qed.

(** X12.  In every execution that reaches the select on [hubsDone], the
    main flow has read [hubs] (for the sort) before it. *)
Theorem hubs_read_precedes_wait (network : string) (w : World) :
  accepts hubs_order_step false (fst (run network w)) = true /\
  (forall done, In (EvSelect FetchHubs done) (fst (run network w)) ->
                In (EvRead v_hubs) (fst (run network w))).
Proof.
  assert (A : accepts hubs_order_step false (fst (run network w)) = true).
  { destruct (hoare_run hubs_order_step network w false (fun _ _ => True))
      as (s' & Hs & _).
    - unfold run_body. repeat hoare_step.
    - unfold accepts. now rewrite Hs. }
  split; [exact A|].
  intros done Hin.
  assert (G : forall t, accepts hubs_order_step false t = true ->
                        In (EvSelect FetchHubs done) t -> In (EvRead v_hubs) t).
  { unfold accepts.
    induction t as [|e t IH]; intros Ha Ht0; [destruct Ht0|].
    destruct Ht0 as [He|Ht].
    - subst e. discriminate Ha.
    - simpl in Ha.
      destruct e as [name|id|f|f d|x|line|format args]; simpl in Ha;
        try (right; now apply IH).
      + destruct f; [right; now apply IH | discriminate Ha].
      + destruct x; try (right; now apply IH). now left. }
  now apply G.
Qed.

Lemma hubs_read_precedes_wait_witness :
  In (EvRead v_hubs) (fst (run "sf" world_six_bikes)).
Proof.
  apply (proj2 (hubs_read_precedes_wait "sf" world_six_bikes) false).
  rewrite run_six_bikes. cbn [fst trace_start app In]. auto 20.
Defined.

Lemma guard_history (pre : list event) :
  forall s s', scan guard_step s pre = Some s' ->
    (fst s' = true -> fst s = true \/ In (EvSelect FetchBikes true) pre) /\
    (snd s' = true -> snd s = true \/ In (EvSelect FetchHubs true) pre).
Proof.
  induction pre as [|e pre IH]; intros s s' H; simpl in H.
  - injection H as <-. tauto.
  - destruct (guard_step s e) as [s1|] eqn:Hstep; [|discriminate].
    destruct (IH s1 s' H) as [IH1 IH2]. clear IH.
    destruct s as [bw hw].
    destruct e as [name|id|f|f d|x|line|format args]; simpl in Hstep;
      try (injection Hstep as <-; simpl in *; split; intros Hq;
           [destruct (IH1 Hq); auto | destruct (IH2 Hq); auto]).
    + destruct f; injection Hstep as <-; simpl in *; split; intros Hq.
      * destruct (IH1 Hq) as [Hb|]; auto.
        apply orb_true_iff in Hb as [Hb| ->]; auto.
      * destruct (IH2 Hq); auto.
      * destruct (IH1 Hq); auto.
      * destruct (IH2 Hq) as [Hb|]; auto.
        apply orb_true_iff in Hb as [Hb| ->]; auto.
    + destruct x; simpl in Hstep;
        try (destruct bw; [|discriminate]);
        try (destruct hw; [|discriminate]);
        injection Hstep as <-; simpl in *; split; intros Hq; auto;
        try (destruct (IH1 Hq); auto); try (destruct (IH2 Hq); auto).
Qed.

(** X13.  Wherever a read of [bikes] or of [bikesErr] stands in the trace,
    the select on [bikesDone] resolved by the channel stands before it; and
    likewise the select on [hubsDone] before a read of [hubsErr]. *)
Theorem reads_follow_their_wait (network : string) (w : World)
        (pre post : list event) (x : var) :
  fst (run network w) = pre ++ EvRead x :: post ->
  match x with
  | v_bikes | v_bikesErr => In (EvSelect FetchBikes true) pre
  | v_hubsErr => In (EvSelect FetchHubs true) pre
  | v_hubs => True
  end.
Proof.
  intros E. pose proof (reads_are_guarded network w) as A.
  unfold accepts in A. rewrite E, scan_app in A.
  destruct (scan guard_step (false, false) pre) as [[bw hw]|] eqn:Hpre;
    [|discriminate].
  destruct (guard_history pre _ _ Hpre) as [H1 H2]. simpl in *.
  destruct x; simpl in A; auto.
  - destruct bw; [|discriminate]. destruct (H1 eq_refl); [discriminate|auto].
  - destruct bw; [|discriminate]. destruct (H1 eq_refl); [discriminate|auto].
  - destruct hw; [|discriminate]. destruct (H2 eq_refl); [discriminate|auto].
Qed.

Lemma reads_follow_their_wait_witness :
  In (EvSelect FetchBikes true)
     (trace_start "sf" ++ [EvSelect FetchBikes true]).
Proof.
  apply (reads_follow_their_wait
           "sf" world_six_bikes
           (trace_start "sf" ++ [EvSelect FetchBikes true])
           [EvRead v_bikes; EvPrintln "Bikes"; EvRead v_bikes;
            bike_line "d" 5; bike_line "b" 10; bike_line "f" 20;
            bike_line "c" 30; bike_line "a" 50; EvPrintln EmptyString;
            EvRead v_hubs; EvSelect FetchHubs false]
           v_bikesErr).
  rewrite run_six_bikes. reflexivity.
Defined.

(* ================================================================= *)
(** ** The sort *)

Section SortCorrect.
Context {A : Type} (key : A -> R) (less : A -> A -> P bool).
Hypothesis less_key :
  forall x y b, less x y = inl b -> b = Rltb (key x) (key y).

Let ascending := StronglySorted (fun a b => (key a <= key b)%R).
Let descending := StronglySorted (fun a b => (key b <= key a)%R).

Lemma Rltb_cases (x y : R) :
  (Rltb x y = true /\ (x < y)%R) \/ (Rltb x y = false /\ (y <= x)%R).
Proof.
  unfold Rltb. destruct (Rlt_dec x y); [left | right]; split; auto; lra.
Qed.

Lemma sink_correct (x : A) (below r : list A) :
  sink less x below = inl r ->
  descending below ->
  Permutation (x :: below) r /\ descending r.
Proof.
  revert r. induction below as [|y below IH]; intros r H Hd; simpl in H.
  - injection H as <-. split; [reflexivity|].
    constructor; constructor.
  - destruct (less x y) as [b|p] eqn:Hl; simpl in H; [|discriminate].
    apply less_key in Hl. subst b.
    inversion Hd as [|y' below' Hd' Hy]; subst.
    destruct (Rltb_cases (key x) (key y)) as [[Hb Hlt]|[Hb Hge]];
      rewrite Hb in H.
    + destruct (sink less x below) as [r'|p] eqn:Hs; simpl in H;
        [|discriminate].
      injection H as <-.
      destruct (IH r' eq_refl Hd') as [Hp Hr].
      split.
      * rewrite perm_swap. now constructor.
      * constructor; [exact Hr|].
        rewrite <- Hp. constructor; [lra | exact Hy].
    + injection H as <-. split; [reflexivity|].
      constructor; [exact Hd|].
      constructor; [exact Hge|].
      rewrite Forall_forall in *. intros z Hz. specialize (Hy z Hz). lra.
Qed.

Lemma ascending_snoc (l : list A) (a : A) :
  ascending l -> Forall (fun b => (key b <= key a)%R) l ->
  ascending (l ++ [a]).
Proof.
  induction l as [|b l IH]; simpl; intros Hs Hf.
  - constructor; constructor.
  - inversion Hs as [|b' l' Hs' Hb]; subst.
    inversion Hf as [|b' l' Hba Hf']; subst.
    constructor; [now apply IH|].
    apply Forall_app. split; [exact Hb|].
    constructor; [exact Hba | constructor].
Qed.

Lemma descending_rev (l : list A) : descending l -> ascending (rev l).
Proof.
  induction 1 as [|a l Hl IH Ha]; simpl; [constructor|].
  apply ascending_snoc; [exact IH|].
  rewrite Forall_forall in *. intros z Hz. apply Ha. now apply in_rev.
Qed.

Lemma insertionSort_from_correct (rest below r : list A) :
  insertionSort_from less below rest = inl r ->
  descending below ->
  Permutation (rev below ++ rest) r /\ ascending r.
Proof.
  revert below r. induction rest as [|x rest IH]; intros below r H Hd;
    simpl in H.
  - injection H as <-. rewrite app_nil_r. split; [reflexivity|].
    now apply descending_rev.
  - destruct (sink less x below) as [below'|p] eqn:Hs; simpl in H;
      [|discriminate].
    destruct (sink_correct x below below' Hs Hd) as [Hp Hd'].
    destruct (IH below' r H Hd') as [Hp' Ha].
    split; [|exact Ha].
    rewrite <- Hp'. rewrite <- (Permutation_rev below'), <- Hp.
    rewrite <- (Permutation_rev below).
    symmetry. apply Permutation_middle.
Qed.

Lemma insertionSort_correct (l r : list A) :
  insertionSort less l = inl r ->
  Permutation l r /\ ascending r.
Proof.
  intros H. apply (insertionSort_from_correct l [] r H). constructor.
Qed.

Lemma sort_Slice_correct (s s' : slice A) :
  sort_Slice less s = inl s' ->
  len s' = len s /\
  ((len s <= cap s)%nat ->
   cap s' = cap s /\
   Permutation (elems s) (elems s') /\
   ascending (elems s')).
Proof.
  unfold sort_Slice. intros H.
  destruct (insertionSort less (elems s)) as [sorted|p] eqn:Hs; simpl in H;
    [|discriminate].
  injection H as <-. split; [reflexivity|]. intros Hle.
  destruct (insertionSort_correct _ _ Hs) as [Hp Ha].
  assert (Hlen : List.length sorted = len s).
  { rewrite <- (Permutation_length Hp). unfold elems.
    apply firstn_length_le. exact Hle. }
  unfold cap, elems in *. simpl.
  split; [|split].
  - rewrite length_app, length_skipn, Hlen. lia.
  - rewrite <- Hlen at 2. rewrite firstn_app, firstn_all, Nat.sub_diag.
    simpl. now rewrite app_nil_r.
  - rewrite <- Hlen at 1. rewrite firstn_app, firstn_all, Nat.sub_diag.
    simpl. now rewrite app_nil_r.
Qed.
End SortCorrect.

Lemma index_nth {A : Type} (l : list A) (i : nat) (v d : A) :
  index l i = inl v -> nth i l d = v.
Proof.
  unfold index. destruct (nth_error l i) as [x|] eqn:E; [|discriminate].
  intros H. injection H as <-. now apply nth_error_nth.
Qed.

Lemma less_by_key (lat lng : float64) (iLocation jLocation : list float64)
      (b : bool) :
  less_by lat lng iLocation jLocation = inl b ->
  b = Rltb (distance lat lng (nth 1 iLocation 0%R) (nth 0 iLocation 0%R))
           (distance lat lng (nth 1 jLocation 0%R) (nth 0 jLocation 0%R)).
Proof.
  unfold less_by.
  destruct (index iLocation 1) as [i1|] eqn:E1; [|discriminate].
  destruct (index iLocation 0) as [i0|] eqn:E0; [|discriminate].
  destruct (index jLocation 1) as [j1|] eqn:F1; [|discriminate].
  destruct (index jLocation 0) as [j0|] eqn:F0; [|discriminate].
  simpl. intros H. injection H as <-.
  now rewrite (index_nth _ _ _ 0%R E1), (index_nth _ _ _ 0%R E0),
    (index_nth _ _ _ 0%R F1), (index_nth _ _ _ 0%R F0).
Qed.

Lemma less_bikes_key (lat lng : float64) (x y : Bike.t) (b : bool) :
  less_bikes lat lng x y = inl b ->
  b = Rltb (bike_distance lat lng x) (bike_distance lat lng y).
Proof. apply less_by_key. Qed.

Lemma less_hubs_key (lat lng : float64) (x y : Hub.t) (b : bool) :
  less_hubs lat lng x y = inl b ->
  b = Rltb (hub_distance lat lng x) (hub_distance lat lng y).
Proof. apply less_by_key. Qed.

Lemma scan_print_step (t lines : list event) :
  scan print_step lines t = Some (lines ++ printed t).
Proof.
  revert lines. induction t as [|e t IH]; intros lines; simpl.
  - now rewrite app_nil_r.
  - rewrite IH. unfold printed. simpl.
    destruct (is_print e); [now rewrite <- app_assoc | reflexivity].
Qed.

Lemma slice_high_ok {A : Type} (s top : slice A) (high : nat) :
  slice_high s high = inl top ->
  (high <= cap s)%nat /\ elems top = firstn high (arr s).
Proof.
  unfold slice_high. destruct (Nat.leb_spec high (cap s)); [|discriminate].
  intros E. injection E as <-. split; [assumption | reflexivity].
Qed.

Ltac hoare_ok :=
  lazymatch goal with
  | |- hoare _ _ (bind (getEnvFloat _ _) _) _ _ =>
      eapply hoare_getEnvFloat_bind; [cbv [print_step is_print]; cbn [app]; reflexivity | intros [? ?] ?]
  | |- hoare _ _ (bind (doAsync _) _) _ _ =>
      eapply hoare_doAsync_bind; [cbv [print_step is_print]; cbn [app]; reflexivity|]
  | |- hoare _ _ (bind (select _ _) _) _ _ =>
      eapply hoare_select_bind; [cbv [print_step is_print]; cbn [app]; reflexivity|]
  | |- hoare _ _ (bind (emit _) _) _ _ =>
      eapply hoare_emit_bind; [cbv [print_step is_print]; cbn [app]; reflexivity|]
  | |- hoare _ _ (bind (liftP _) _) _ _ =>
      apply hoare_liftP_bind; [intros ? ? | intros ? ? ?; discriminate]
  | |- hoare _ _ (return_ (Some _)) _ _ =>
      apply hoare_return; intros ?; discriminate
  | |- hoare _ _ (match ?x with Some _ => _ | None => _ end) _ _ =>
      destruct x eqn:?
  | |- hoare _ _ (let '(_, _) := ?x in _) _ _ => destruct x eqn:?
  | |- hoare _ _ (if negb ?b then _ else _) _ _ =>
      destruct b eqn:?; simpl negb; cbv iota
  end.

Lemma hoare_bikes_loop (lat lng : float64) (l : list Bike.t)
      (exit : outcome -> list event -> Prop) :
  (forall p lines, exit (Panics p) lines) ->
  forall base,
  hoare print_step base
    (for_range l (fun bike =>
       let location := Coordinates (Bike.CurrentPosition bike) in
       l1 <- liftP (index location 1) ;;
       l0 <- liftP (index location 0) ;;
       let dist := distance lat lng l1 l0 in
       emit (EvPrintf bike_format
               [ArgS (Bike.Name bike); ArgS (Bike.Address bike); ArgF dist;
                ArgD (Bike.EbikeBatteryLevel bike)])))
    (fun _ lines => lines = base ++ map (bike_report lat lng) l) exit.
Proof.
  intros Hexit. induction l as [|x l IH]; intros base.
  - exists base. simpl. now rewrite app_nil_r.
  - cbn [for_range].
    apply (hoare_bind _ _ _ _
             (fun _ lines => lines = base ++ [bike_report lat lng x])).
    + cbv zeta.
      apply hoare_liftP_bind; [intros l1 H1 | intros; apply Hexit].
      apply hoare_liftP_bind; [intros l0 H0 | intros; apply Hexit].
      eapply hoare_emit; [reflexivity|].
      unfold bike_report. cbv zeta.
      now rewrite (index_nth _ _ _ 0%R H1), (index_nth _ _ _ 0%R H0).
    + intros _ s1 ->.
      destruct (IH (base ++ [bike_report lat lng x])) as (s' & Hs & Hr).
      exists s'. split; [exact Hs|].
      destruct (snd (for_range l _)); [|exact Hr].
      rewrite Hr, <- app_assoc. reflexivity.
Qed.

Lemma hoare_hubs_loop (lat lng : float64) (l : list Hub.t)
      (exit : outcome -> list event -> Prop) :
  (forall p lines, exit (Panics p) lines) ->
  forall base,
  hoare print_step base
    (for_range l (fun hub =>
       let location := Coordinates (Hub.MiddlePoint hub) in
       l1 <- liftP (index location 1) ;;
       l0 <- liftP (index location 0) ;;
       let dist := distance lat lng l1 l0 in
       emit (EvPrintf hub_format
               [ArgS (Hub.Name hub); ArgS (Hub.Address hub);
                ArgD (add64 (Hub.AvailableBikes hub)
                            (Hub.AvailableEbikes hub));
                ArgF dist])))
    (fun _ lines => lines = base ++ map (hub_report lat lng) l) exit.
Proof.
  intros Hexit. induction l as [|x l IH]; intros base.
  - exists base. simpl. now rewrite app_nil_r.
  - cbn [for_range].
    apply (hoare_bind _ _ _ _
             (fun _ lines => lines = base ++ [hub_report lat lng x])).
    + cbv zeta.
      apply hoare_liftP_bind; [intros l1 H1 | intros; apply Hexit].
      apply hoare_liftP_bind; [intros l0 H0 | intros; apply Hexit].
      eapply hoare_emit; [reflexivity|].
      unfold hub_report. cbv zeta.
      now rewrite (index_nth _ _ _ 0%R H1), (index_nth _ _ _ 0%R H0).
    + intros _ s1 ->.
      destruct (IH (base ++ [hub_report lat lng x])) as (s' & Hs & Hr).
      exists s'. split; [exact Hs|].
      destruct (snd (for_range l _)); [|exact Hr].
      rewrite Hr, <- app_assoc. reflexivity.
Qed.

Lemma run_body_success (network : string) (w : World) :
  hoare print_step [] (run_body network w) (fun _ _ => False)
        (fun o lines => o = Returns None -> success_report network w lines).
Proof.
  unfold run_body. repeat hoare_ok.
  eapply hoare_bind;
    [apply (hoare_bikes_loop r r0); intros; discriminate | intros [] s1 ->].
  repeat hoare_ok.
  eapply hoare_bind;
    [apply (hoare_hubs_loop r r0); intros; discriminate | intros [] s2 ->].
  apply hoare_return. intros _.
  destruct (slice_high_ok _ _ _ H2) as [Hc2 He2].
  destruct (slice_high_ok _ _ _ H4) as [Hc4 He4].
  exists r, r0, s, a, s0, a1.
  repeat (split; [assumption|]).
  rewrite He2, He4. cbn [app]. rewrite <- !app_assoc. reflexivity.
Qed.

Lemma run_success (network : string) (w : World) :
  snd (run network w) = Returns None ->
  success_report network w (printed (fst (run network w))).
Proof.
  intros Hok.
  destruct (hoare_run print_step network w [] _ (run_body_success network w))
    as (lines & Hs & Hr).
  rewrite scan_print_step in Hs. injection Hs as <-.
  now apply Hr.
Qed.

(* ================================================================= *)
(** ** The report of a run that returns nil *)

Lemma firstn_5_length {A : Type} (l : list A) :
  (5 <= List.length l)%nat -> List.length (firstn 5 l) = 5%nat.
Proof. intros H. now apply firstn_length_le. Qed.

Lemma run_hubs_after_sort_ok :
  snd (run "sf" world_hubs_after_sort) = Returns None.
Proof.
  run_start. unfold world_hubs_after_sort. run_steps.
  rewrite six_bikes_sort_Slice. run_steps.
  rewrite sort_Slice_nil. unfold five_hubs. run_steps.
  reflexivity.
Qed.

Lemma five_hubs_sort_Slice :
  sort_Slice (less_hubs 0 0) (slice_of five_hubs)
  = inl (slice_of five_hubs_ranked).
Proof.
  unfold sort_Slice, five_hubs, elems, slice_of, insertionSort.
  cbn [len arr firstn skipn List.length]. sink_hubs. reflexivity.
Qed.

Lemma run_hubs_early_ok :
  snd (run "sf" world_hubs_early) = Returns None.
Proof.
  run_start. unfold world_hubs_early. run_steps.
  rewrite six_bikes_sort_Slice. run_steps.
  rewrite five_hubs_sort_Slice. unfold five_hubs_ranked. run_steps.
  reflexivity.
Qed.

(** X14.  A run that returns nil has printed thirteen lines: the header
    [Bikes], five bike lines, an empty line, the header [Hubs] and five hub
    lines. *)
Theorem run_success_prints_report (network : string) (w : World) :
  snd (run network w) = Returns None ->
  exists bikeLines hubLines,
    printed (fst (run network w))
    = EvPrintln "Bikes" :: bikeLines
      ++ EvPrintln EmptyString :: EvPrintln "Hubs" :: hubLines /\
    List.length bikeLines = 5%nat /\ forallb is_bike_line bikeLines = true /\
    List.length hubLines = 5%nat /\ forallb is_hub_line hubLines = true /\
    List.length (printed (fst (run network w))) = 13%nat.
Proof.
  intros Hok.
  destruct (run_success network w Hok)
    as (lat & lng & bikes & sortedBikes & hubs & sortedHubs &
        _ & _ & _ & _ & _ & Hcb & _ & _ & _ & Hch & Hlines).
  cbv zeta in Hch, Hlines.
  set (printedHubs := match hubsArrival w with
                      | Early => sortedHubs
                      | _ => hubs
                      end) in *.
  exists (map (bike_report lat lng) (firstn 5 (arr sortedBikes))),
         (map (hub_report lat lng) (firstn 5 (arr printedHubs))).
  assert (Lb : List.length (firstn 5 (arr sortedBikes)) = 5%nat)
    by now apply firstn_5_length.
  assert (Lh : List.length (firstn 5 (arr printedHubs)) = 5%nat)
    by now apply firstn_5_length.
  split; [exact Hlines|].
  rewrite Hlines. cbn [List.length].
  rewrite length_app. cbn [List.length]. rewrite !length_map, Lb, Lh.
  repeat split; try reflexivity.
  - rewrite forallb_forall. intros e He. apply in_map_iff in He.
    destruct He as (b & <- & _). reflexivity.
  - rewrite forallb_forall. intros e He. apply in_map_iff in He.
    destruct He as (b & <- & _). reflexivity.
Qed.

Lemma run_success_prints_report_witness :
  exists bikeLines hubLines,
    printed (fst (run "sf" world_hubs_after_sort))
    = EvPrintln "Bikes" :: bikeLines
      ++ EvPrintln EmptyString :: EvPrintln "Hubs" :: hubLines /\
    List.length bikeLines = 5%nat /\ forallb is_bike_line bikeLines = true /\
    List.length hubLines = 5%nat /\ forallb is_hub_line hubLines = true /\
    List.length (printed (fst (run "sf" world_hubs_after_sort))) = 13%nat.
Proof.
  apply run_success_prints_report. exact run_hubs_after_sort_ok.
Defined.

Lemma firstn_arr_elems {A : Type} (s : slice A) (n : nat) :
  (n <= len s)%nat -> firstn n (arr s) = firstn n (elems s).
Proof.
  intros H. unfold elems. rewrite firstn_firstn.
  now rewrite Nat.min_l.
Qed.





(* ================================================================= *)
(** ** Failed fetches *)

Lemma getEnvFloat_value (w : World) (name : string)
      (r : float64 * option error) :
  snd (getEnvFloat w name) = inl r ->
  getEnvFloat w name = ([EvLookupEnv name], inl r).
Proof.
  intros H. destruct (getEnvFloat_trace w name) as [r' E].
  rewrite E in *. simpl in H. now injection H as ->.
Qed.

Lemma run_bikes_error (network : string) (w : World) (lat lng : float64)
      (s : slice Bike.t) (e : error) :
  snd (getEnvFloat w "LAT") = inl (lat, None) ->
  snd (getEnvFloat w "LNG") = inl (lng, None) ->
  arrived (bikesArrival w) = true ->
  callBikes w (NewClient network) = (s, Some e) ->
  run network w
  = (trace_start network ++ [EvSelect FetchBikes true; EvRead v_bikesErr],
     Returns (Some e)).
Proof.
  intros Hlat Hlng Ha Hc.
  apply getEnvFloat_value in Hlat, Hlng.
  unfold run, run_body. rewrite Hlat, Hlng.
  cbn [bind ret emit return_ doAsync select app fst snd].
  rewrite Ha. cbn [negb bind ret emit return_ app fst snd].
  rewrite Hc. reflexivity.
Qed.

(** X17.  Once the position has been read, a bikes fetch that does not
    return in time makes [run] return the error [timed out waiting for bikes
    response], and a bikes fetch that returns an error makes [run] return
    that very error.  In both cases the goroutine of the hubs fetch has been
    started, nothing is read of its result, and nothing is printed. *)
Theorem run_bikes_failure (network : string) (w : World)
        (lat lng : float64) :
  snd (getEnvFloat w "LAT") = inl (lat, None) ->
  snd (getEnvFloat w "LNG") = inl (lng, None) ->
  (arrived (bikesArrival w) = false ->
   run network w
   = (trace_start network ++ [EvSelect FetchBikes false],
      Returns (Some (errorString "timed out waiting for bikes response"))))
  /\
  (forall s e,
      arrived (bikesArrival w) = true ->
      callBikes w (NewClient network) = (s, Some e) ->
      run network w
      = (trace_start network ++ [EvSelect FetchBikes true; EvRead v_bikesErr],
         Returns (Some e))).
Proof.
  intros Hlat Hlng. split; [intros Ha | intros s e Ha Hc].
  - apply getEnvFloat_value in Hlat, Hlng.
    unfold run, run_body. rewrite Hlat, Hlng.
    cbn [bind ret emit return_ doAsync select app fst snd].
    rewrite Ha. reflexivity.
  - now apply (run_bikes_error network w lat lng s).
Qed.

Lemma run_bikes_failure_witness :
  run "sf" world_bikes_late
  = (trace_start "sf" ++ [EvSelect FetchBikes false],
     Returns (Some (errorString "timed out waiting for bikes response"))).
Proof.
  apply (proj1 (run_bikes_failure "sf" world_bikes_late 0%R 0%R
                                  eq_refl eq_refl)).
  reflexivity.
Defined.

Ltac hoare_alt fin :=
  lazymatch goal with
  | |- hoare _ _ (bind (getEnvFloat _ _) _) _ _ =>
      eapply hoare_getEnvFloat_bind; [reflexivity | intros [? ?] ?]
  | |- hoare _ _ (bind (doAsync _) _) _ _ =>
      eapply hoare_doAsync_bind; [reflexivity|]
  | |- hoare _ _ (bind (select _ _) _) _ _ =>
      eapply hoare_select_bind; [reflexivity|]
  | |- hoare _ _ (bind (emit _) _) _ _ =>
      eapply hoare_emit_bind; [reflexivity|]
  | |- hoare _ _ (bind (liftP _) _) _ _ =>
      apply hoare_liftP_bind; [intros ? ? | intros ? ?; fin]
  | |- hoare _ ?s (bind (for_range _ _) _) _ _ =>
      apply (hoare_for_range_bind _ (fun _ s1 => s1 = s));
      [reflexivity | intros ? ? ? -> | intros ? ->]
  | |- hoare _ _ (emit _) _ _ =>
      eapply hoare_emit; [reflexivity | reflexivity]
  | |- hoare _ _ (return_ _) _ _ => apply hoare_return; fin
  | |- hoare _ _ (match ?x with Some _ => _ | None => _ end) _ _ =>
      destruct x eqn:?
  | |- hoare _ _ (let '(_, _) := ?x in _) _ _ => destruct x eqn:?
  | |- hoare _ _ (if negb ?b then _ else _) _ _ =>
      destruct b eqn:?; simpl negb; cbv iota
  end.

(** X18.  Once the position has been read and the bikes have arrived
    without error, a hubs fetch that does not return in time makes [run]
    return the error [timed out waiting for hubs response], and a hubs fetch
    that returns an error makes [run] return that very error, unless the
    run has panicked before. *)
Theorem run_hubs_failure (network : string) (w : World)
        (lat lng : float64) (bikes : slice Bike.t) :
  snd (getEnvFloat w "LAT") = inl (lat, None) ->
  snd (getEnvFloat w "LNG") = inl (lng, None) ->
  arrived (bikesArrival w) = true ->
  callBikes w (NewClient network) = (bikes, None) ->
  (arrived (hubsArrival w) = false ->
   (exists p, snd (run network w) = Panics p) \/
   snd (run network w)
   = Returns (Some (errorString "timed out waiting for hubs response")))
  /\
  (forall s e,
      arrived (hubsArrival w) = true ->
      callHubs w (NewClient network) = (s, Some e) ->
      (exists p, snd (run network w) = Panics p) \/
      snd (run network w) = Returns (Some e)).
Proof.
  intros Hlat Hlng Hab Hcb. split; [intros Hah | intros s e Hah Hch].
  - destruct (hoare_run no_step network w tt
                (fun o _ =>
                   (exists p, o = Panics p) \/
                   o = Returns
                         (Some (errorString
                                  "timed out waiting for hubs response"))))
      as (s' & _ & Hr); [|exact Hr].
    unfold run_body.
    repeat hoare_alt
      ltac:(first [ left; eexists; reflexivity
                  | right; reflexivity
                  | exfalso; congruence ]).
  - destruct (hoare_run no_step network w tt
                (fun o _ => (exists p, o = Panics p) \/
                            o = Returns (Some e)))
      as (s' & _ & Hr); [|exact Hr].
    unfold run_body.
    repeat hoare_alt
      ltac:(first [ left; eexists; reflexivity
                  | right; congruence
                  | exfalso; congruence ]).
Qed.

Lemma run_hubs_failure_witness :
  (exists p, snd (run "sf" world_six_bikes) = Panics p) \/
  snd (run "sf" world_six_bikes)
  = Returns (Some (errorString "timed out waiting for hubs response")).
Proof.
  apply (proj1 (run_hubs_failure "sf" world_six_bikes 0%R 0%R
                                 (slice_of six_bikes)
                                 eq_refl eq_refl eq_refl eq_refl)).
  reflexivity.
Defined.

(** X19.  [run] returns nil only if both fetched slices have room for five
    elements: with a list of bikes or of hubs whose capacity is below five
    (so with fewer than five records in a slice without spare room), [run]
    does not return nil. *)
Theorem run_success_needs_five (network : string) (w : World) :
  snd (run network w) = Returns None ->
  let bikes := fst (callBikes w (NewClient network)) in
  let hubs := fst (callHubs w (NewClient network)) in
  ((len bikes <= cap bikes)%nat -> (5 <= cap bikes)%nat) /\
  ((len hubs <= cap hubs)%nat -> (5 <= cap hubs)%nat).
Proof.
  intros Hok.
  destruct (run_success network w Hok)
    as (lat & lng & bikes & sortedBikes & hubs & sortedHubs &
        _ & _ & _ & Hcb & Hsb & H5b & _ & Hch & Hsh & H5h & _).
  rewrite Hcb, Hch. cbv zeta in *. simpl fst. split; intros Hwf.
  - destruct (sort_Slice_correct (bike_distance lat lng) (less_bikes lat lng)
                (less_bikes_key lat lng) bikes sortedBikes Hsb)
      as [_ Hrest].
    destruct (Hrest Hwf) as (Hcap & _). lia.
  - destruct (hubsArrival w); try exact H5h.
    destruct (sort_Slice_correct (hub_distance lat lng) (less_hubs lat lng)
                (less_hubs_key lat lng) hubs sortedHubs Hsh)
      as [_ Hrest].
    destruct (Hrest Hwf) as (Hcap & _). lia.
Qed.

Lemma run_success_needs_five_witness :
  ((len (slice_of six_bikes) <= cap (slice_of six_bikes))%nat ->
   (5 <= cap (slice_of six_bikes))%nat) /\
  ((len (slice_of five_hubs) <= cap (slice_of five_hubs))%nat ->
   (5 <= cap (slice_of five_hubs))%nat).
Proof.
  apply (run_success_needs_five "sf" world_hubs_after_sort).
  exact run_hubs_after_sort_ok.
Defined.

(* ================================================================= *)
(** ** The request, and the two packages together *)

Lemma Referer_text (id : string) :
  Sprintf "https://map.jump.com/?network_id=%s&theme=jump" [ArgS id]
  = ("https://map.jump.com/?network_id=" ++ id ++ "&theme=jump")%string.
Proof. reflexivity. Qed.

(** X20.  [newRequest] returns the error of [http.NewRequest] as it is;
    otherwise the request keeps its method, its URL and the headers it
    came with, and gets four more, in this order: [Referer] with the network
    ID in it, [User-Agent], [Sec-Fetch-Mode: cors] and [Accept]. *)
Theorem newRequest_headers (rt : Runtime) (c : Client) (url : string) :
  (forall err, http_NewRequest rt "GET" url = inr err ->
               newRequest rt c url = inr err) /\
  (forall req0, http_NewRequest rt "GET" url = inl req0 ->
     exists req agent accept,
       newRequest rt c url = inl req /\
       Method req = Method req0 /\ URL req = URL req0 /\
       Header req
       = Header req0 ++
         [("Referer",
           "https://map.jump.com/?network_id=" ++ networkID c
             ++ "&theme=jump");
          ("User-Agent", agent);
          ("Sec-Fetch-Mode", "cors");
          ("Accept", accept)]%string).
Proof.
  split; intros x Hx; unfold newRequest; rewrite Hx; [reflexivity|].
  eexists _, _, _. split; [reflexivity|].
  cbv zeta. unfold Header_Add. cbn [Method URL Header].
  rewrite Referer_text, <- !app_assoc. repeat split; reflexivity.
Qed.

Lemma newRequest_headers_witness :
  exists req agent accept,
    newRequest (example_rt (fun _ => inl response_404)) example_client
               "https://example.org/"
    = inl req /\
    Method req = "GET"%string /\ URL req = "https://example.org/"%string /\
    Header req
    = [] ++
      [("Referer", "https://map.jump.com/?network_id=" ++ "sf"
                     ++ "&theme=jump");
       ("User-Agent", agent);
       ("Sec-Fetch-Mode", "cors");
       ("Accept", accept)]%string.
Proof.
  apply (proj2 (newRequest_headers (example_rt (fun _ => inl response_404))
                                   example_client "https://example.org/")
               (mkRequest "GET" "https://example.org/" [])).
  reflexivity.
Defined.

Lemma run_nil_bikes (network : string) (w : World) (lat lng : float64) :
  snd (getEnvFloat w "LAT") = inl (lat, None) ->
  snd (getEnvFloat w "LNG") = inl (lng, None) ->
  arrived (bikesArrival w) = true ->
  callBikes w (NewClient network) = (nil_slice, None) ->
  run network w
  = (trace_start network ++
     [EvSelect FetchBikes true; EvRead v_bikesErr; EvRead v_bikes;
      EvPrintln "Bikes"; EvRead v_bikes],
     Panics (SliceBoundsOutOfRange 5 0)).
Proof.
  intros Hlat Hlng Ha Hc.
  apply getEnvFloat_value in Hlat, Hlng.
  unfold run, run_body. rewrite Hlat, Hlng.
  cbn [bind ret emit return_ doAsync select app fst snd].
  rewrite Ha, Hc, sort_Slice_nil. reflexivity.
Qed.

(** X21.  With no bikes at all (the nil slice and a nil error), [run]
    prints the header [Bikes] and panics at [bikes[:5]]; the process ends
    in that panic. *)
Theorem run_without_bikes (network : string) (w : World)
        (lat lng : float64) :
  snd (getEnvFloat w "LAT") = inl (lat, None) ->
  snd (getEnvFloat w "LNG") = inl (lng, None) ->
  arrived (bikesArrival w) = true ->
  callBikes w (NewClient network) = (nil_slice, None) ->
  printed (fst (run network w)) = [EvPrintln "Bikes"] /\
  snd (run network w) = Panics (SliceBoundsOutOfRange 5 0) /\
  snd (main network w) = PanicAtRuntime (SliceBoundsOutOfRange 5 0).
Proof.
  intros Hlat Hlng Ha Hc. unfold main.
  rewrite (run_nil_bikes network w lat lng Hlat Hlng Ha Hc).
  repeat split; reflexivity.
Qed.

Lemma run_without_bikes_witness :
  printed (fst (run "sf"
                    (example_world (Some "0"%string) (Some "0"%string)
                                   (nil_slice, None) (nil_slice, None)
                                   Early Early)))
  = [EvPrintln "Bikes"] /\
  snd (run "sf"
           (example_world (Some "0"%string) (Some "0"%string)
                          (nil_slice, None) (nil_slice, None) Early Early))
  = Panics (SliceBoundsOutOfRange 5 0) /\
  snd (main "sf"
            (example_world (Some "0"%string) (Some "0"%string)
                           (nil_slice, None) (nil_slice, None) Early Early))
  = PanicAtRuntime (SliceBoundsOutOfRange 5 0).
Proof.
  apply (run_without_bikes "sf" _ 0%R 0%R); reflexivity.
Defined.

(** X22.  The two packages together: when the request for the bikes is
    answered with a status other than 200, [run] prints nothing and returns
    an error whose text shows the status code and the body, and [main]
    panics with that error; the hubs goroutine has been started all the
    same. *)
Theorem bikes_status_ends_the_process (rt : Runtime)
        (env : string -> option string)
        (parse : string -> float64 * option error)
        (ab ah : arrival) (network : string) (res : Response)
        (lat lng : float64) :
  let w := over_network rt env parse ab ah in
  snd (getEnvFloat w "LAT") = inl (lat, None) ->
  snd (getEnvFloat w "LNG") = inl (lng, None) ->
  arrived ab = true ->
  receives rt (NewClient network) (bikes_url (NewClient network)) res ->
  StatusCode res <> StatusOK ->
  exists err,
    reports_status res err /\
    run network w
    = (trace_start network ++ [EvSelect FetchBikes true; EvRead v_bikesErr],
       Returns (Some err)) /\
    main network w
    = (trace_start network ++ [EvSelect FetchBikes true; EvRead v_bikesErr],
       PanicWithError err).
Proof.
  intros w Hlat Hlng Ha Hrec Hne.
  exists (status_error "jump.Bikes" res).
  assert (Hrun : run network w
                 = (trace_start network ++
                    [EvSelect FetchBikes true; EvRead v_bikesErr],
                    Returns (Some (status_error "jump.Bikes" res)))).
  { apply getEnvFloat_value in Hlat, Hlng.
    unfold run, run_body. rewrite Hlat, Hlng. subst w.
    cbn [bind ret emit return_ doAsync select app fst snd
         bikesArrival callBikes over_network].
    rewrite Ha. cbn [negb].
    rewrite (Bikes_non200 rt (NewClient network) res Hrec Hne).
    reflexivity. }
  split; [|split].
  - apply (status_text_reports "jump.Bikes"), status_text.
  - exact Hrun.
  - unfold main. now rewrite Hrun.
Qed.

Lemma bikes_status_ends_the_process_witness :
  exists err,
    reports_status response_404 err /\
    run "sf" (over_network (example_rt (fun _ => inl response_404))
                           (example_env (Some "0"%string) (Some "0"%string))
                           example_ParseFloat InTime InTime)
    = (trace_start "sf" ++ [EvSelect FetchBikes true; EvRead v_bikesErr],
       Returns (Some err)) /\
    main "sf" (over_network (example_rt (fun _ => inl response_404))
                            (example_env (Some "0"%string) (Some "0"%string))
                            example_ParseFloat InTime InTime)
    = (trace_start "sf" ++ [EvSelect FetchBikes true; EvRead v_bikesErr],
       PanicWithError err).
Proof.
  apply (bikes_status_ends_the_process
           (example_rt (fun _ => inl response_404))
           (example_env (Some "0"%string) (Some "0"%string))
           example_ParseFloat InTime InTime "sf" response_404 0%R 0%R);
    try reflexivity.
  - eexists; split; reflexivity.
  - vm_compute. discriminate.
Defined.

(* ================================================================= *)
(** ** The two revisions of run *)

Lemma agree_bind {A B} (m1 m2 : M A) (f1 f2 : A -> M B) :
  agree m1 m2 -> (forall a, agree (f1 a) (f2 a)) ->
  agree (bind m1 f1) (bind m2 f2).
Proof.
  unfold agree, bind, lines_rev1, lines_now.
  destruct m1 as [t1 r1], m2 as [t2 r2]. simpl. intros [<- Ht] Hf.
  destruct r1 as [a|o]; simpl.
  - specialize (Hf a). destruct (f1 a) as [u1 s1], (f2 a) as [u2 s2].
    simpl in *. destruct Hf as [-> Hu].
    split; [reflexivity|]. now rewrite !flat_map_app, Ht, Hu.
  - split; [reflexivity | exact Ht].
Qed.

Lemma agree_refl_silent {A} (m : M A) :
  lines_rev1 (fst m) = lines_now (fst m) -> agree m m.
Proof. intros H. split; [reflexivity | exact H]. Qed.

Lemma agree_emit_right {A} (m1 : M A) (e : event) (k : unit -> M A) :
  line_of bike_format hub_format e = [] ->
  agree m1 (k tt) -> agree m1 (bind (emit e) k).
Proof.
  unfold agree, bind, emit, lines_now. intros He [Hs Ht].
  destruct (k tt) as [t r]. simpl in *. rewrite He. simpl. now split.
Qed.

Lemma agree_emit_left {A} (m2 : M A) (e : event) (k : unit -> M A) :
  line_of main_rev1.bike_format main_rev1.hub_format e = [] ->
  agree (k tt) m2 -> agree (bind (emit e) k) m2.
Proof.
  unfold agree, bind, emit, lines_rev1. intros He [Hs Ht].
  destruct (k tt) as [t r]. simpl in *. rewrite He. simpl. now split.
Qed.

Lemma agree_emit_both {A} (e1 e2 : event) (k1 k2 : unit -> M A) :
  line_of main_rev1.bike_format main_rev1.hub_format e1
  = line_of bike_format hub_format e2 ->
  agree (k1 tt) (k2 tt) ->
  agree (bind (emit e1) k1) (bind (emit e2) k2).
Proof.
  unfold agree, bind, emit, lines_rev1, lines_now. intros He [Hs Ht].
  destruct (k1 tt) as [t1 r1], (k2 tt) as [t2 r2]. simpl in *.
  split; [exact Hs|]. now rewrite He, Ht.
Qed.

Lemma agree_doAsync_right {A} (m1 : M A) (f : fetch) (k : fetch -> M A) :
  agree m1 (k f) -> agree m1 (bind (doAsync f) k).
Proof.
  unfold agree, bind, doAsync, emit, ret, lines_now. simpl.
  destruct (k f) as [t r]. simpl. intros [Hs Ht]. now split.
Qed.

Lemma agree_select_right {A} (m1 : M A) (ch : fetch) (a : arrival)
      (k : bool -> M A) :
  agree m1 (k (arrived a)) -> agree m1 (bind (select ch a) k).
Proof.
  unfold agree, bind, select, emit, ret, lines_now. simpl.
  destruct (k (arrived a)) as [t r]. simpl. intros [Hs Ht]. now split.
Qed.

Lemma agree_getEnvFloat {B} (w : World) (name : string)
      (k1 k2 : float64 * option error -> M B) :
  (forall r, agree (k1 r) (k2 r)) ->
  agree (bind (getEnvFloat w name) k1) (bind (getEnvFloat w name) k2).
Proof.
  intros H. apply agree_bind; [|exact H].
  apply agree_refl_silent.
  destruct (getEnvFloat_trace w name) as [r ->]. reflexivity.
Qed.

Lemma agree_liftP {A B} (m : P A) (k1 k2 : A -> M B) :
  (forall a, m = inl a -> agree (k1 a) (k2 a)) ->
  agree (bind (liftP m) k1) (bind (liftP m) k2).
Proof.
  intros H. destruct m as [a|p]; simpl.
  - specialize (H a eq_refl). unfold agree in *.
    destruct (k1 a), (k2 a). exact H.
  - split; reflexivity.
Qed.

Lemma agree_for_range {A} (l : list A) (b1 b2 : A -> M unit) :
  (forall x, agree (b1 x) (b2 x)) ->
  agree (for_range l b1) (for_range l b2).
Proof.
  intros H. induction l as [|x l IH]; simpl.
  - split; reflexivity.
  - apply agree_bind; [apply H | intros _; exact IH].
Qed.

Lemma agree_return {A} (err : option error) :
  agree (@return_ A err) (return_ err).
Proof. split; reflexivity. Qed.

Ltac agree_step :=
  lazymatch goal with
  | |- agree (bind (getEnvFloat _ _) _) (bind (getEnvFloat _ _) _) =>
      apply agree_getEnvFloat; intros [? ?]
  | |- agree (bind (liftP _) _) (bind (liftP _) _) =>
      apply agree_liftP; intros ? ?
  | |- agree (bind (for_range _ _) _) (bind (for_range _ _) _) =>
      apply agree_bind; [apply agree_for_range; intros ? | intros []]
  | |- agree (return_ _) (return_ _) => apply agree_return
  | |- agree (bind (emit (EvPrintln _)) _) (bind (emit (EvPrintln _)) _) =>
      apply agree_emit_both; [reflexivity|]
  | |- agree (bind (emit (EvNewClient _)) _) (bind (emit (EvNewClient _)) _) =>
      apply agree_emit_both; [reflexivity|]
  | |- agree (emit (EvPrintf _ _)) (emit (EvPrintf _ _)) =>
      split; reflexivity
  | |- agree _ (bind (doAsync _) _) => apply agree_doAsync_right
  | |- agree _ (bind (select _ _) _) => apply agree_select_right
  | |- agree _ (bind (emit (EvRead _)) _) =>
      apply agree_emit_right; [reflexivity|]
  | |- agree (bind (emit (EvGo _)) _) _ =>
      apply agree_emit_left; [reflexivity|]
  | |- agree (match ?x with Some _ => _ | None => _ end)
             (match ?x with Some _ => _ | None => _ end) =>
      destruct x
  end.

Lemma run_bodies_agree (network : string) (w : World) :
  arrived (bikesArrival w) = true ->
  hubsArrival w = Early ->
  (forall s e, callHubs w (NewClient network) = (s, Some e) ->
               s = nil_slice) ->
  agree (main_rev1.run_body network w) (run_body network w).
Proof.
  intros Ha Hh Hnil.
  unfold main_rev1.run_body, run_body. rewrite Hh.
  repeat agree_step.
  rewrite Ha. cbn [negb].
  destruct (callBikes w (NewClient network)) as [bikes [e|]];
    repeat agree_step.
  destruct (callHubs w (NewClient network)) as [hubs [e|]] eqn:Hc.
  - rewrite (Hnil hubs e eq_refl).
    apply agree_emit_right; [reflexivity|].
    rewrite sort_Slice_nil. split; reflexivity.
  - repeat agree_step. cbn [arrived negb]. repeat agree_step.
Qed.

(** X23.  The two revisions of [run] agree when, in the present one, the
    bikes arrive in time and the hubs fetch has returned before the main
    flow sorts [hubs] (and an error of the hubs fetch comes with the nil
    slice, as [Hubs] returns it): they end in the same way and print the
    same headers and the same records, in the same order. *)
Theorem revisions_agree (network : string) (w : World) :
  arrived (bikesArrival w) = true ->
  hubsArrival w = Early ->
  (forall s e, callHubs w (NewClient network) = (s, Some e) ->
               s = nil_slice) ->
  snd (main_rev1.run network w) = snd (run network w) /\
  lines_rev1 (fst (main_rev1.run network w))
  = lines_now (fst (run network w)).
Proof.
  intros Ha Hh Hnil.
  destruct (run_bodies_agree network w Ha Hh Hnil) as [Hs Ht].
  unfold main_rev1.run, run.
  destruct (main_rev1.run_body network w) as [t1 r1],
           (run_body network w) as [t2 r2].
  simpl in *. subst r2. destruct r1; now split.
Qed.

Lemma revisions_agree_witness :
  snd (main_rev1.run "sf" world_hubs_early)
  = snd (run "sf" world_hubs_early) /\
  lines_rev1 (fst (main_rev1.run "sf" world_hubs_early))
  = lines_now (fst (run "sf" world_hubs_early)).
Proof.
  apply revisions_agree; try reflexivity.
  intros s e H. discriminate H.
Defined.

(** X24.  In the earlier revision a failed bikes fetch ends the run before
    the hubs are asked for: [run] returns the error of [Bikes], and its
    trace holds the call of the bikes fetch and no call of the hubs fetch.
    (The present revision has started both goroutines by then.) *)
Theorem rev1_bikes_failure (network : string) (w : World)
        (lat lng : float64) (s : slice Bike.t) (e : error) :
  snd (getEnvFloat w "LAT") = inl (lat, None) ->
  snd (getEnvFloat w "LNG") = inl (lng, None) ->
  callBikes w (NewClient network) = (s, Some e) ->
  main_rev1.run network w
  = ([EvLookupEnv "LAT"; EvLookupEnv "LNG"; EvNewClient network;
      EvGo FetchBikes],
     Returns (Some e)) /\
  ~ In (EvGo FetchHubs) (fst (main_rev1.run network w)) /\
  (arrived (bikesArrival w) = true ->
   In (EvGo FetchHubs) (fst (run network w))).
Proof.
  intros Hlat Hlng Hc.
  assert (E : main_rev1.run network w
              = ([EvLookupEnv "LAT"; EvLookupEnv "LNG"; EvNewClient network;
                  EvGo FetchBikes],
                 Returns (Some e))).
  { apply getEnvFloat_value in Hlat, Hlng.
    unfold main_rev1.run, main_rev1.run_body. rewrite Hlat, Hlng.
    cbn [bind ret emit return_ app fst snd]. rewrite Hc. reflexivity. }
  split; [exact E|]. split.
  - rewrite E. simpl. intros [H|[H|[H|[H|[]]]]]; discriminate H.
  - intros Ha.
    rewrite (run_bikes_error network w lat lng s e Hlat Hlng Ha Hc).
    simpl. auto 10.
Qed.

Lemma rev1_bikes_failure_witness :
  main_rev1.run "sf"
    (example_world (Some "0"%string) (Some "0"%string)
                   (nil_slice, Some (status_error "jump.Bikes" response_404))
                   (nil_slice, None) Early Early)
  = ([EvLookupEnv "LAT"; EvLookupEnv "LNG"; EvNewClient "sf";
      EvGo FetchBikes],
     Returns (Some (status_error "jump.Bikes" response_404))).
Proof.
  apply (rev1_bikes_failure "sf" _ 0%R 0%R nil_slice); reflexivity.
Defined.

Lemma Bikes_without_items (rt : Runtime) (c : Client) (res : Response)
      (bytes : string) (v : json) :
  receives rt c (bikes_url c) res ->
  StatusCode res = StatusOK ->
  Body res = inl bytes ->
  json_parse rt bytes = inl v ->
  lacks_items rt v ->
  snd (Decode rt (unmarshal_Bikes rt) "jump.Bike" (Body res) response_zero)
  = None ->
  Bikes rt c = (nil_slice, None).
Proof.
  intros (req & Hreq & Hdo) Hs Hb Hp Hl Hdec.
  unfold Bikes. rewrite Hreq, Hdo, Hs. cbn [negb Z.eqb StatusOK].
  pose proof (Decode_keeps_nil rt (unmarshal_Bikes rt) "jump.Bike"
                               bytes v Hp Hl) as Hnil.
  rewrite Hb in *.
  destruct (Decode rt (unmarshal_Bikes rt) "jump.Bike" (inl bytes)
                   response_zero) as [parsedBody err].
  simpl in Hdec, Hnil. subst err. now rewrite Hnil.
Qed.

(** X25.  The two packages together: when the answer to the request for
    the bikes is a 200 whose document lacks the items and decodes without
    error, [Bikes] returns no bikes and no error, and [run] prints the
    header [Bikes] and panics at [bikes[:5]]. *)
Theorem envelope_without_items_panics (rt : Runtime)
        (env : string -> option string)
        (parse : string -> float64 * option error)
        (ab ah : arrival) (network : string) (res : Response)
        (bytes : string) (v : json) (lat lng : float64) :
  let w := over_network rt env parse ab ah in
  let c := NewClient network in
  snd (getEnvFloat w "LAT") = inl (lat, None) ->
  snd (getEnvFloat w "LNG") = inl (lng, None) ->
  arrived ab = true ->
  receives rt c (bikes_url c) res ->
  StatusCode res = StatusOK ->
  Body res = inl bytes ->
  json_parse rt bytes = inl v ->
  lacks_items rt v ->
  snd (Decode rt (unmarshal_Bikes rt) "jump.Bike" (Body res) response_zero)
  = None ->
  printed (fst (run network w)) = [EvPrintln "Bikes"] /\
  snd (run network w) = Panics (SliceBoundsOutOfRange 5 0).
Proof.
  intros w c Hlat Hlng Ha Hrec Hs Hb Hp Hl Hdec.
  assert (Hc : callBikes w (NewClient network) = (nil_slice, None)).
  { apply (Bikes_without_items rt c res bytes v); assumption. }
  rewrite (run_nil_bikes network w lat lng Hlat Hlng Ha Hc).
  split; reflexivity.
Qed.

Lemma envelope_without_items_panics_witness :
  printed (fst (run "sf"
                    (over_network
                       (example_rt (fun _ => inl response_empty_object))
                       (example_env (Some "0"%string) (Some "0"%string))
                       example_ParseFloat InTime InTime)))
  = [EvPrintln "Bikes"] /\
  snd (run "sf"
           (over_network
              (example_rt (fun _ => inl response_empty_object))
              (example_env (Some "0"%string) (Some "0"%string))
              example_ParseFloat InTime InTime))
  = Panics (SliceBoundsOutOfRange 5 0).
Proof.
  apply (envelope_without_items_panics
           (example_rt (fun _ => inl response_empty_object))
           (example_env (Some "0"%string) (Some "0"%string))
           example_ParseFloat InTime InTime "sf" response_empty_object
           "{}" (JObject []) 0%R 0%R); try reflexivity.
  - eexists; split; reflexivity.
  - intros members E. injection E as <-. intros key v' [].
Defined.
